(** * onair-link: the fader state engine and the Pro DJ Link packet codec

    A shallow embedding of [onair-link.py]: the mixer profile classes, the
    two packet encoders of [ProDjLink] and the event handler of [MidiMain],
    followed by the properties of the specification that were checked
    against them.

    Python values are modelled as follows.
    - [int] is [Z]; [bool] is [bool], with [int(b)] written [Z.b2z b].
    - [str] is the list of its code points; [bytes] is a list of octets.
    - a Python list is a [list]; [l[i]] and [l[i] = x] are [py_getitem] and
      [py_setitem], which raise [IndexError] out of range and accept the
      negative indices Python accepts.
    - a raised exception is the [Raise] branch of [result]; the state of an
      engine whose handler raised is not observable (the program exits). *)

From Stdlib Require Import ZArith Lia Bool String Ascii.
From stdpp Require Import base list.

Open Scope Z_scope.

(** ** Exceptions and fallible computations *)

Inductive exn : Type :=
| AttributeError
| IndexError
| UnicodeEncodeError
| SystemExit.

Inductive result (A : Type) : Type :=
| Ok (a : A)
| Raise (e : exn).

Arguments Ok {A} a.
Arguments Raise {A} e.

Definition bind {A B : Type} (r : result A) (k : A -> result B) : result B :=
  match r with
  | Ok a => k a
  | Raise e => Raise e
  end.

Notation "x <- r ;; k" := (bind r (fun x => k))
  (at level 100, r at next level, right associativity).

(** ** Python lists *)

Section PyList.
Context {A : Type}.

(** The position a Python index denotes in [l], if any. *)
Definition py_index (l : list A) (i : Z) : result nat :=
  let n := Z.of_nat (length l) in
  if (0 <=? i) && (i <? n) then Ok (Z.to_nat i)
  else if (- n <=? i) && (i <? 0) then Ok (Z.to_nat (n + i))
  else Raise IndexError.

Definition py_getitem (l : list A) (i : Z) : result A :=
  k <- py_index l i ;;
  match l !! k with
  | Some x => Ok x
  | None => Raise IndexError
  end.

Definition py_setitem (l : list A) (i : Z) (x : A) : result (list A) :=
  k <- py_index l i ;; Ok (<[k := x]> l).
End PyList.

(** [x in range(start, stop)] *)
Definition in_range (start stop x : Z) : bool := (start <=? x) && (x <? stop).

(** ** Strings and bytes *)

Definition str := list Z.
Definition bytes := list Z.

Definition str_of_string (s : string) : str :=
  map (fun c => Z.of_N (N_of_ascii c)) (list_ascii_of_string s).

(** [s.ljust(width, fill)] *)
Definition ljust (s : str) (width : nat) (fill : Z) : str :=
  s ++ replicate (width - length s)%nat fill.

(** One code point under [str.encode()] (UTF-8, strict): a lone surrogate
    cannot be encoded. *)
Definition utf8_char (c : Z) : result bytes :=
  if c <? 0x80 then Ok [c]
  else if c <? 0x800 then
    Ok [Z.lor 0xC0 (Z.shiftr c 6); Z.lor 0x80 (Z.land c 0x3F)]
  else if (0xD800 <=? c) && (c <=? 0xDFFF) then Raise UnicodeEncodeError
  else if c <? 0x10000 then
    Ok [Z.lor 0xE0 (Z.shiftr c 12);
        Z.lor 0x80 (Z.land (Z.shiftr c 6) 0x3F);
        Z.lor 0x80 (Z.land c 0x3F)]
  else
    Ok [Z.lor 0xF0 (Z.shiftr c 18);
        Z.lor 0x80 (Z.land (Z.shiftr c 12) 0x3F);
        Z.lor 0x80 (Z.land (Z.shiftr c 6) 0x3F);
        Z.lor 0x80 (Z.land c 0x3F)].

Fixpoint encode (s : str) : result bytes :=
  match s with
  | [] => Ok []
  | c :: s' => b <- utf8_char c ;; bs <- encode s' ;; Ok (b ++ bs)
  end.

(** [bytes(l)] for a list of booleans *)
Definition bytes_of_bools (l : list bool) : bytes := map Z.b2z l.

(** ** Constants *)

Definition DEVICE_NAME : str := str_of_string "On Air Link".

(** ** Mixer profiles

    A profile is a class of constants.  Looking up a constant that the
    class does not define gives [None] in the classes built on
    [DJMEnumBase] (its metaclass answers [None]) and raises
    [AttributeError] in the plain [IntEnum] classes. *)

Inductive attr : Type :=
| Member (v : Z)
| AttrNone
| AttrMissing.

Record djm_enum : Type := {
  CH_MAX : Z;
  CROSS_FADER : Z;
  CH1_FADER : Z;
  FIRST_CROSS_FADER_ASSIGN : Z;
  CH_FADER : attr;
  FADER_START1_NOTE : attr
}.

Definition DJM250MK2 : djm_enum :=
  {| CH_MAX := 2; CROSS_FADER := 0xB; CH1_FADER := 0x11;
     FIRST_CROSS_FADER_ASSIGN := 0x60;
     CH_FADER := AttrNone; FADER_START1_NOTE := AttrNone |}.

Definition DJM450 : djm_enum :=
  {| CH_MAX := 2; CROSS_FADER := 0xB; CH1_FADER := 0x11;
     FIRST_CROSS_FADER_ASSIGN := 0x60;
     CH_FADER := AttrNone; FADER_START1_NOTE := AttrNone |}.

Definition DJM750 : djm_enum :=
  {| CH_MAX := 4; CROSS_FADER := 11; CH1_FADER := 17;
     FIRST_CROSS_FADER_ASSIGN := 65;
     CH_FADER := Member 94; FADER_START1_NOTE := AttrMissing |}.

Definition DJM750MK2 : djm_enum :=
  {| CH_MAX := 4; CROSS_FADER := 0xB; CH1_FADER := 0x11;
     FIRST_CROSS_FADER_ASSIGN := 0x41;
     CH_FADER := Member 0x5E; FADER_START1_NOTE := AttrMissing |}.

Definition DJM850 : djm_enum :=
  {| CH_MAX := 4; CROSS_FADER := 11; CH1_FADER := 17;
     FIRST_CROSS_FADER_ASSIGN := 65;
     CH_FADER := Member 94; FADER_START1_NOTE := Member 102 |}.

(** [x == cls.NAME] for an integer [x] *)
Definition attr_eqb (x : Z) (a : attr) : result bool :=
  match a with
  | Member v => Ok (x =? v)
  | AttrNone => Ok false
  | AttrMissing => Raise AttributeError
  end.

(** The value of [cls.NAME] when it is truthy: [None] and [0] are not. *)
Definition attr_truthy (a : attr) : result (option Z) :=
  match a with
  | Member v => Ok (if v =? 0 then None else Some v)
  | AttrNone => Ok None
  | AttrMissing => Raise AttributeError
  end.

(** ** The packet codec: class [ProDjLink] *)

Module ProDjLink.

Definition _HEADER : bytes :=
  [0x51; 0x73; 0x70; 0x74; 0x31; 0x57; 0x6d; 0x4a; 0x4f; 0x4c].

Definition _MAX_DEVICE_NAME_LEN : nat := 20.

(** The warning logged when the padded name is longer than the limit. *)
Definition truncation_logged (device_name : str) : bool :=
  (_MAX_DEVICE_NAME_LEN <? length (ljust device_name _MAX_DEVICE_NAME_LEN 0))%nat.

Definition _format_device_name (device_name : str) : result bytes :=
  let device_name := ljust device_name _MAX_DEVICE_NAME_LEN 0 in
  let ret_dev_name := take _MAX_DEVICE_NAME_LEN device_name in
  encode ret_dev_name.

Definition onair_pkt (device_name : str) (onair_ch : list bool) : result bytes :=
  device_name <- _format_device_name device_name ;;
  Ok (_HEADER ++ [0x03] ++ device_name ++ [0x01; 0; 0; 0; 0x09]
        ++ bytes_of_bools onair_ch ++ [0; 0; 0; 0; 0]).

Definition fader_start_pkt (device_name : str) (channel : Z) (stop : bool)
  : result bytes :=
  device_name <- _format_device_name device_name ;;
  let ch_state := replicate 4 2 in
  ch_state <- py_setitem ch_state channel (Z.b2z stop) ;;
  Ok (_HEADER ++ [0x02] ++ device_name ++ [0x01; 0; 0; 0; 0x04] ++ ch_state).

End ProDjLink.

(** ** Events

    The events [client.event_input()] delivers.  Only controller and
    note-on events carry fields the handler reads. *)

Inductive event : Type :=
| Controller (param value : Z)
| NoteOn (note velocity : Z)
| NoteOff (note velocity : Z)
| OtherEvent.

(** What one call of [client.event_input()] can do. *)
Inductive input : Type :=
| Received (e : event)
| PortUnsubscribed
| InputException
| InputInterrupt.

(** ** The fader state engine: class [MidiMain] *)

Record MidiMain : Type := {
  source_port : option string;
  xfader_value : Z;
  xfader_channel : string;
  cross_fader_assign : list Z;
  fader_value : list Z;
  onair_fader : list bool;
  fader_th : Z;
  last_fader_start_pkt : option bytes;
  last_onair_pkt : option bytes;
  prev_event : option event
}.

Definition FADER_TRESHOLD : Z := 1.
Definition CH_FADER_LOW_SLOPE_THRESHOLD : Z := 2.

(** [MidiMain.__init__] *)
Definition MidiMain_init (djm : djm_enum) (source_port : option string) : MidiMain :=
  {| source_port := source_port;
     xfader_value := 64;
     xfader_channel := "AB";
     cross_fader_assign := replicate (Z.to_nat (CH_MAX djm)) 64;
     fader_value := replicate (Z.to_nat (CH_MAX djm)) 0;
     onair_fader := replicate (Z.to_nat (CH_MAX djm)) false;
     fader_th := FADER_TRESHOLD;
     last_fader_start_pkt := None;
     last_onair_pkt := None;
     prev_event := None |}.

(** Field assignments. *)
Definition set_source_port (v : option string) (self : MidiMain) : MidiMain :=
  {| source_port := v; xfader_value := xfader_value self;
     xfader_channel := xfader_channel self;
     cross_fader_assign := cross_fader_assign self;
     fader_value := fader_value self; onair_fader := onair_fader self;
     fader_th := fader_th self;
     last_fader_start_pkt := last_fader_start_pkt self;
     last_onair_pkt := last_onair_pkt self; prev_event := prev_event self |}.

Definition set_xfader (value : Z) (channel : string) (self : MidiMain) : MidiMain :=
  {| source_port := source_port self; xfader_value := value;
     xfader_channel := channel;
     cross_fader_assign := cross_fader_assign self;
     fader_value := fader_value self; onair_fader := onair_fader self;
     fader_th := fader_th self;
     last_fader_start_pkt := last_fader_start_pkt self;
     last_onair_pkt := last_onair_pkt self; prev_event := prev_event self |}.

Definition set_cross_fader_assign (v : list Z) (self : MidiMain) : MidiMain :=
  {| source_port := source_port self; xfader_value := xfader_value self;
     xfader_channel := xfader_channel self;
     cross_fader_assign := v;
     fader_value := fader_value self; onair_fader := onair_fader self;
     fader_th := fader_th self;
     last_fader_start_pkt := last_fader_start_pkt self;
     last_onair_pkt := last_onair_pkt self; prev_event := prev_event self |}.

Definition set_fader_value (v : list Z) (self : MidiMain) : MidiMain :=
  {| source_port := source_port self; xfader_value := xfader_value self;
     xfader_channel := xfader_channel self;
     cross_fader_assign := cross_fader_assign self;
     fader_value := v; onair_fader := onair_fader self;
     fader_th := fader_th self;
     last_fader_start_pkt := last_fader_start_pkt self;
     last_onair_pkt := last_onair_pkt self; prev_event := prev_event self |}.

Definition set_onair_fader (v : list bool) (self : MidiMain) : MidiMain :=
  {| source_port := source_port self; xfader_value := xfader_value self;
     xfader_channel := xfader_channel self;
     cross_fader_assign := cross_fader_assign self;
     fader_value := fader_value self; onair_fader := v;
     fader_th := fader_th self;
     last_fader_start_pkt := last_fader_start_pkt self;
     last_onair_pkt := last_onair_pkt self; prev_event := prev_event self |}.

Definition set_fader_th (v : Z) (self : MidiMain) : MidiMain :=
  {| source_port := source_port self; xfader_value := xfader_value self;
     xfader_channel := xfader_channel self;
     cross_fader_assign := cross_fader_assign self;
     fader_value := fader_value self; onair_fader := onair_fader self;
     fader_th := v;
     last_fader_start_pkt := last_fader_start_pkt self;
     last_onair_pkt := last_onair_pkt self; prev_event := prev_event self |}.

Definition set_last_fader_start_pkt (v : option bytes) (self : MidiMain) : MidiMain :=
  {| source_port := source_port self; xfader_value := xfader_value self;
     xfader_channel := xfader_channel self;
     cross_fader_assign := cross_fader_assign self;
     fader_value := fader_value self; onair_fader := onair_fader self;
     fader_th := fader_th self;
     last_fader_start_pkt := v;
     last_onair_pkt := last_onair_pkt self; prev_event := prev_event self |}.

Definition set_last_onair_pkt (v : option bytes) (self : MidiMain) : MidiMain :=
  {| source_port := source_port self; xfader_value := xfader_value self;
     xfader_channel := xfader_channel self;
     cross_fader_assign := cross_fader_assign self;
     fader_value := fader_value self; onair_fader := onair_fader self;
     fader_th := fader_th self;
     last_fader_start_pkt := last_fader_start_pkt self;
     last_onair_pkt := v; prev_event := prev_event self |}.

Definition set_prev_event (v : option event) (self : MidiMain) : MidiMain :=
  {| source_port := source_port self; xfader_value := xfader_value self;
     xfader_channel := xfader_channel self;
     cross_fader_assign := cross_fader_assign self;
     fader_value := fader_value self; onair_fader := onair_fader self;
     fader_th := fader_th self;
     last_fader_start_pkt := last_fader_start_pkt self;
     last_onair_pkt := last_onair_pkt self; prev_event := v |}.

(** [MidiMain.__update_onair_fader] *)
Fixpoint __update_onair_fader (self : MidiMain) (direction_down : bool)
    (fader_th : Z) (upd_idx : list Z) : result MidiMain :=
  match upd_idx with
  | [] => Ok self
  | i :: upd_idx' =>
      v <- py_getitem (fader_value self) i ;;
      onair <- py_setitem (onair_fader self) i (fader_th + Z.b2z direction_down <=? v) ;;
      __update_onair_fader (set_onair_fader onair self) direction_down fader_th upd_idx'
  end.

(** [MidiMain._get_onair_xfader] *)
Definition _get_onair_xfader (self : MidiMain) : list bool :=
  if String.eqb (xfader_channel self) "A" then
    map (fun v => v <=? 64) (cross_fader_assign self)
  else if String.eqb (xfader_channel self) "B" then
    map (fun v => 64 <=? v) (cross_fader_assign self)
  else replicate 4 true.

(** [[vf & vx for vf, vx in zip(self.onair_fader, self._get_onair_xfader())]] *)
Definition onair_channels (self : MidiMain) : list bool :=
  zip_with andb (onair_fader self) (_get_onair_xfader self).

(** The fader-start button heuristic: the event before a button press
    decides the cross-fader assignment of the button's channel. *)
Definition assign_from_prev_event (djm : djm_enum) (self : MidiMain) (channel : Z)
  : result MidiMain :=
  match prev_event self with
  | None => Raise AttributeError
  | Some (Controller prev_param prev_value) =>
      if prev_param =? CROSS_FADER djm then
        a <- py_setitem (cross_fader_assign self) channel
               (if 64 <=? prev_value then 0 else 127) ;;
        Ok (set_cross_fader_assign a self)
      else if in_range (CH1_FADER djm) (CH1_FADER djm + CH_MAX djm) prev_param then
        a <- py_setitem (cross_fader_assign self) channel 64 ;;
        Ok (set_cross_fader_assign a self)
      else Ok self
  | Some _ => Ok self
  end.

(** The branches of [wait_handle_input_event] on the event's type and
    address.  The result is the engine, [out_pkt] and [send_onair_pkt]. *)
Definition dispatch (djm : djm_enum) (self : MidiMain) (event : event)
  : result (MidiMain * bytes * bool) :=
  match event with
  | Controller param value =>
      if param =? CROSS_FADER djm then
        let channel : string :=
          if value <=? FADER_TRESHOLD - Z.b2z (xfader_value self <? value)
          then "A"%string
          else if 127 - (FADER_TRESHOLD - Z.b2z (value <? xfader_value self)) <=? value
          then "B"%string
          else "AB"%string in
        Ok (set_xfader value channel self, [], true)
      else if in_range (CH1_FADER djm) (CH1_FADER djm + CH_MAX djm) param then
        old <- py_getitem (fader_value self) (param - CH1_FADER djm) ;;
        let direction_down := value <? old in
        fv <- py_setitem (fader_value self) (param - CH1_FADER djm) value ;;
        self <- __update_onair_fader (set_fader_value fv self) direction_down
                  (fader_th self) [param - CH1_FADER djm] ;;
        Ok (self, [], true)
      else if in_range (FIRST_CROSS_FADER_ASSIGN djm)
                (FIRST_CROSS_FADER_ASSIGN djm + CH_MAX djm) param then
        if CH_MAX djm =? 2 then
          a <- py_setitem (cross_fader_assign self) 0 value ;;
          a <- py_setitem a 1 (127 - value) ;;
          Ok (set_cross_fader_assign a self, [], true)
        else
          a <- py_setitem (cross_fader_assign self)
                 (param - FIRST_CROSS_FADER_ASSIGN djm) value ;;
          Ok (set_cross_fader_assign a self, [], true)
      else
        is_ch_fader <- attr_eqb param (CH_FADER djm) ;;
        if is_ch_fader then
          let new_fader_th :=
            if 64 <=? value then FADER_TRESHOLD else CH_FADER_LOW_SLOPE_THRESHOLD in
          self <- (if fader_th self =? new_fader_th then Ok self
                   else __update_onair_fader self (fader_th self <? new_fader_th)
                          new_fader_th [0; 1; 2; 3]) ;;
          Ok (set_fader_th new_fader_th self, [], true)
        else Ok (self, [], false)
  | NoteOn note velocity =>
      base <- attr_truthy (FADER_START1_NOTE djm) ;;
      match base with
      | Some first_note =>
          if in_range first_note (first_note + CH_MAX djm) note then
            pkt <- ProDjLink.fader_start_pkt DEVICE_NAME (note - first_note)
                     (velocity =? 0) ;;
            let out_pkt :=
              if bool_decide (last_fader_start_pkt self = Some pkt) then [] else pkt in
            self <- assign_from_prev_event djm
                      (set_last_fader_start_pkt (Some pkt) self) (note - first_note) ;;
            Ok (self, out_pkt, true)
          else Ok (self, [], false)
      | None => Ok (self, [], false)
      end
  | _ => Ok (self, [], false)
  end.

(** The on-air packet: sent when it differs from the last one computed. *)
Definition send_onair (self : MidiMain) (out_pkt : bytes) : result (MidiMain * bytes) :=
  pkt <- ProDjLink.onair_pkt DEVICE_NAME (onair_channels self) ;;
  let out_pkt := if bool_decide (last_onair_pkt self = Some pkt) then out_pkt else pkt in
  Ok (set_last_onair_pkt (Some pkt) self, out_pkt).

(** [if self.prev_event == None: self.prev_event = event] *)
Definition first_prev_event (self : MidiMain) (event : event) : MidiMain :=
  match prev_event self with
  | None => set_prev_event (Some event) self
  | Some _ => self
  end.

(** The body of [wait_handle_input_event] once an event has been read:
    the engine after the event and the bytes returned (empty: no packet). *)
Definition handle_event (djm : djm_enum) (self : MidiMain) (event : event)
  : result (MidiMain * bytes) :=
  let self := first_prev_event self event in
  r <- dispatch djm self event ;;
  let '(self, out_pkt, send_onair_pkt) := r in
  r <- (if send_onair_pkt : bool then send_onair self out_pkt else Ok (self, out_pkt)) ;;
  let '(self, out_pkt) := r in
  Ok (set_prev_event (Some event) self, out_pkt).

(** [MidiMain.wait_handle_input_event], given what [event_input] does.
    [None] is Python's [None]: no event was handled. *)
Definition wait_handle_input_event (djm : djm_enum) (self : MidiMain) (i : input)
  : result (MidiMain * option bytes) :=
  match source_port self with
  | None => Ok (self, None)
  | Some _ =>
      match i with
      | PortUnsubscribed | InputException => Ok (set_source_port None self, None)
      | InputInterrupt => Raise SystemExit
      | Received event =>
          r <- handle_event djm self event ;;
          Ok (fst r, Some (snd r))
      end
  end.

(** Feeding a sequence of events to an engine. *)
Fixpoint run (djm : djm_enum) (self : MidiMain) (events : list event)
  : result (MidiMain * list bytes) :=
  match events with
  | [] => Ok (self, [])
  | e :: events' =>
      r <- handle_event djm self e ;;
      r' <- run djm (fst r) events' ;;
      Ok (fst r', snd r :: snd r')
  end.

(** The engines a session can reach from a fresh one. *)
Inductive reachable (djm : djm_enum) : MidiMain -> Prop :=
| reachable_init port : reachable djm (MidiMain_init djm port)
| reachable_step self event self' out_pkt :
    reachable djm self ->
    handle_event djm self event = Ok (self', out_pkt) ->
    reachable djm self'.

(** All per-channel lists have one entry per channel. *)
Definition sized (djm : djm_enum) (self : MidiMain) : Prop :=
  length (cross_fader_assign self) = Z.to_nat (CH_MAX djm) /\
  length (fader_value self) = Z.to_nat (CH_MAX djm) /\
  length (onair_fader self) = Z.to_nat (CH_MAX djm).

(** ** Device lookup and the session loop

    A port is known by the client name it reports.  The list of ports is
    what [client.list_ports] answers at the time of the call. *)

(** [sub in s] for two strings *)
Fixpoint contains (sub s : string) : bool :=
  String.prefix sub s ||
  match s with
  | EmptyString => false
  | String _ s' => contains sub s'
  end.

(** [find_port] *)
Fixpoint find_port (ports : list string) (port_str : string) : string :=
  match ports with
  | [] => ""
  | client_name :: ports' =>
      if contains port_str client_name then client_name
      else find_port ports' port_str
  end.

(** [get_djm_enum]: an [if]/[elif] pair followed by three separate [if]s. *)
Definition get_djm_enum (client_name : string) : option djm_enum :=
  let djm_enum := None in
  let djm_enum :=
    if String.eqb client_name "DJM-250MK2" then Some DJM250MK2
    else if String.eqb client_name "DJM-450" then Some DJM450
    else djm_enum in
  let djm_enum :=
    if String.eqb client_name "DJM-750" then Some DJM750 else djm_enum in
  let djm_enum :=
    if String.eqb client_name "DJM-750MK2" then Some DJM750MK2 else djm_enum in
  let djm_enum :=
    if String.eqb client_name "DJM-850" then Some DJM850 else djm_enum in
  djm_enum.

(** [MidiMain.connect_port]: the engine and the boolean returned. *)
Fixpoint connect_port (self : MidiMain) (ports : list string) (port_str : string)
  : MidiMain * bool :=
  match ports with
  | [] => (self, false)
  | client_name :: ports' =>
      if contains port_str client_name
      then (set_source_port (Some client_name) self, true)
      else connect_port self ports' port_str
  end.

(** The variables of [main]: the engine with the profile it was built
    with, and the name of the last device attached. *)
Record session : Type := {
  djm_enum_of : djm_enum;
  midi_main : MidiMain;
  last_src_port_name : option string
}.

(** One round of the start-up loop of [main]. *)
Definition main_start (ports : list string) : option session :=
  match get_djm_enum (find_port ports "DJM") with
  | Some djm =>
      Some {| djm_enum_of := djm; midi_main := MidiMain_init djm None;
              last_src_port_name := None |}
  | None => None
  end.

(** The first part of a round of the main loop: attaching when the engine
    has no port.  [None] is the [continue] taken when no port is found.
    When the device differs from the last one, a new engine is built for
    the profile of its name; for a name without profile [MidiMain(None, ..)]
    raises on [None.CH_MAX]. *)
Definition attach (s : session) (ports : list string) : result (option session) :=
  match source_port (midi_main s) with
  | Some _ => Ok (Some s)
  | None =>
      let '(mm, connected) := connect_port (midi_main s) ports "DJM" in
      if connected : bool then
        match source_port mm with
        | None => Raise AttributeError
        | Some client_name =>
            s1 <- (match last_src_port_name s with
                   | Some last =>
                       if negb (String.eqb last client_name) then
                         match get_djm_enum client_name with
                         | Some djm =>
                             Ok {| djm_enum_of := djm;
                                   midi_main := MidiMain_init djm (Some client_name);
                                   last_src_port_name := last_src_port_name s |}
                         | None => Raise AttributeError
                         end
                       else Ok {| djm_enum_of := djm_enum_of s; midi_main := mm;
                                  last_src_port_name := last_src_port_name s |}
                   | None => Ok {| djm_enum_of := djm_enum_of s; midi_main := mm;
                                   last_src_port_name := last_src_port_name s |}
                   end) ;;
            Ok (Some {| djm_enum_of := djm_enum_of s1; midi_main := midi_main s1;
                        last_src_port_name := Some client_name |})
        end
      else Ok None
  end.

(** One round of the main loop: the session afterwards and the packet
    handed to [sock.sendto], if any. *)
Definition main_iteration (s : session) (ports : list string) (i : input)
  : result (session * option bytes) :=
  a <- attach s ports ;;
  match a with
  | None => Ok (s, None)
  | Some s1 =>
      r <- wait_handle_input_event (djm_enum_of s1) (midi_main s1) i ;;
      Ok ({| djm_enum_of := djm_enum_of s1; midi_main := fst r;
             last_src_port_name := last_src_port_name s1 |},
          match snd r with
          | Some (b :: pkt) => Some (b :: pkt)
          | _ => None
          end)
  end.

(** A profile on which no controller event can raise: its slope control,
    if any, comes with four channels, and it has at most four channels. *)
Definition controller_safe (djm : djm_enum) : Prop :=
  0 <= CH_MAX djm <= 4 /\
  CH_FADER djm <> AttrMissing /\
  (forall c, CH_FADER djm = Member c -> CH_MAX djm = 4).

(** The addresses of a profile do not overlap. *)
Definition addresses_disjoint (djm : djm_enum) : Prop :=
  let ch := in_range (CH1_FADER djm) (CH1_FADER djm + CH_MAX djm) in
  let asg := in_range (FIRST_CROSS_FADER_ASSIGN djm)
               (FIRST_CROSS_FADER_ASSIGN djm + CH_MAX djm) in
  ch (CROSS_FADER djm) = false /\
  asg (CROSS_FADER djm) = false /\
  (forall x, ch x = true -> asg x = false) /\
  (forall c, CH_FADER djm = Member c ->
             c <> CROSS_FADER djm /\ ch c = false /\ asg c = false).

(** ** Notions used by the statements *)

(** The 20 bytes [DEVICE_NAME] is formatted to. *)
Definition DEVICE_NAME_field : bytes :=
  [79; 110; 32; 65; 105; 114; 32; 76; 105; 110; 107; 0; 0; 0; 0; 0; 0; 0; 0; 0].

(** The on-air packet of this device for a channel vector. *)
Definition onair_bytes (onair_ch : list bool) : bytes :=
  ProDjLink._HEADER ++ [0x03] ++ DEVICE_NAME_field ++ [0x01; 0; 0; 0; 0x09]
    ++ bytes_of_bools onair_ch ++ [0; 0; 0; 0; 0].

(** The fader-start packet of this device for a tri-state array. *)
Definition fader_start_bytes (ch_state : list Z) : bytes :=
  ProDjLink._HEADER ++ [0x02] ++ DEVICE_NAME_field ++ [0x01; 0; 0; 0; 0x04] ++ ch_state.

Arguments onair_bytes : simpl never.
Arguments fader_start_bytes : simpl never.

(** A name [str.encode()] accepts: no code point is a lone surrogate. *)
Definition encodable (s : str) : Prop :=
  Forall (fun c => (0xD800 <=? c) && (c <=? 0xDFFF) = false) s.

(** The mirrored assignment of a two-channel mixer:
    [assign[0] + assign[1] == 127]. *)
Definition assign_mirrored (self : MidiMain) : Prop :=
  exists a b, cross_fader_assign self = [a; b] /\ a + b = 127.

(** The result of the handler from the result of its branches. *)
Definition finish (event : event) (self : MidiMain) (out_pkt : bytes) (send : bool)
  : MidiMain * bytes :=
  if send then
    (set_prev_event (Some event)
       (set_last_onair_pkt (Some (onair_bytes (onair_channels self))) self),
     if bool_decide (last_onair_pkt self = Some (onair_bytes (onair_channels self)))
     then out_pkt else onair_bytes (onair_channels self))
  else (set_prev_event (Some event) self, out_pkt).

(** What the button heuristic writes into the assignment list. *)
Definition assign_after_button (djm : djm_enum) (prev : option event)
    (assign : list Z) (channel : nat) : list Z :=
  match prev with
  | Some (Controller prev_param prev_value) =>
      if prev_param =? CROSS_FADER djm then
        <[channel := if 64 <=? prev_value then 0 else 127]> assign
      else if in_range (CH1_FADER djm) (CH1_FADER djm + CH_MAX djm) prev_param then
        <[channel := 64]> assign
      else assign
  | _ => assign
  end.

(** Two engines with the same mixer state: the fields the controller
    branches read and write. *)
Definition same_core (self1 self2 : MidiMain) : Prop :=
  xfader_value self1 = xfader_value self2 /\
  xfader_channel self1 = xfader_channel self2 /\
  cross_fader_assign self1 = cross_fader_assign self2 /\
  fader_value self1 = fader_value self2 /\
  onair_fader self1 = onair_fader self2 /\
  fader_th self1 = fader_th self2.

(** The event reaches the end of its branch with [send_onair_pkt] set: an
    on-air vector is computed for it. *)
Definition computes_onair (djm : djm_enum) (self : MidiMain) (event : event) : Prop :=
  exists self1 out_pkt,
    dispatch djm (first_prev_event self event) event = Ok (self1, out_pkt, true).

(** An event outside every recognized range of the profile, the needed
    constants being either defined or answered with [None]. *)
Definition unrecognized (djm : djm_enum) (event : event) : Prop :=
  match event with
  | Controller param _ =>
      param <> CROSS_FADER djm /\
      ~ CH1_FADER djm <= param < CH1_FADER djm + CH_MAX djm /\
      ~ FIRST_CROSS_FADER_ASSIGN djm <= param
          < FIRST_CROSS_FADER_ASSIGN djm + CH_MAX djm /\
      (CH_FADER djm = AttrNone \/ exists c, CH_FADER djm = Member c /\ param <> c)
  | NoteOn note _ =>
      FADER_START1_NOTE djm = AttrNone \/
      (exists b, FADER_START1_NOTE djm = Member b /\ b = 0) \/
      (exists b, FADER_START1_NOTE djm = Member b /\
                 ~ b <= note < b + CH_MAX djm)
  | _ => True
  end.

(** ** Proof steps *)

(** Case analysis of a computation in the [result] monad. *)
Ltac crack H :=
  repeat first
    [ discriminate H
    | match type of H with
      | context [bind ?r _] =>
          let E := fresh "E" in destruct r eqn:E; cbn [bind] in H
      | context [if ?c then _ else _] =>
          let E := fresh "E" in destruct c eqn:E
      end ].

(** Two engines are equal when their fields are. *)
Ltac same_state s :=
  destruct s; cbn in *; subst; reflexivity.

(** A membership test of [range] that fails. *)
Ltac range_false :=
  unfold in_range;
  apply andb_false_iff;
  rewrite ?Z.leb_gt, ?Z.ltb_ge; lia.

(** * Properties *)

(** ** Python lists *)

Section PyListFacts.
Context {A : Type}.
Implicit Types (l : list A) (i : Z).

Lemma py_index_in_range l i :
  0 <= i < Z.of_nat (length l) -> py_index l i = Ok (Z.to_nat i).
Proof.
  intros H. unfold py_index.
  replace (0 <=? i) with true by (symmetry; apply Z.leb_le; lia).
  replace (i <? Z.of_nat (length l)) with true by (symmetry; apply Z.ltb_lt; lia).
  reflexivity.
Qed.

Lemma py_index_ge l i :
  Z.of_nat (length l) <= i -> py_index l i = Raise IndexError.
Proof.
  intros H. unfold py_index.
  replace (i <? Z.of_nat (length l)) with false by (symmetry; apply Z.ltb_ge; lia).
  replace (i <? 0) with false by (symmetry; apply Z.ltb_ge; lia).
  rewrite !andb_false_r. reflexivity.
Qed.

Lemma py_index_lt l i k : py_index l i = Ok k -> (k < length l)%nat.
Proof.
  unfold py_index. cbv zeta.
  destruct ((0 <=? i) && _) eqn:E1.
  - intros [= <-]. apply andb_true_iff in E1 as [H1 H2]. lia.
  - destruct (_ && (i <? 0)) eqn:E2; [|discriminate].
    intros [= <-]. apply andb_true_iff in E2 as [H1 H2]. lia.
Qed.

Lemma py_getitem_in_range l i x :
  0 <= i -> l !! Z.to_nat i = Some x -> py_getitem l i = Ok x.
Proof.
  intros Hi Hx. unfold py_getitem.
  rewrite py_index_in_range.
  - cbn. rewrite Hx. reflexivity.
  - apply lookup_lt_Some in Hx. lia.
Qed.

Lemma py_setitem_in_range l i x :
  0 <= i < Z.of_nat (length l) -> py_setitem l i x = Ok (<[Z.to_nat i := x]> l).
Proof. intros H. unfold py_setitem. rewrite py_index_in_range by exact H. reflexivity. Qed.

Lemma py_setitem_length l i x l' :
  py_setitem l i x = Ok l' -> length l' = length l.
Proof.
  unfold py_setitem. destruct (py_index l i); cbn; [|discriminate].
  intros [= <-]. apply length_insert.
Qed.

(** Writing the same entry again changes nothing. *)
Lemma py_setitem_again l i x l' :
  py_setitem l i x = Ok l' -> py_setitem l' i x = Ok l'.
Proof.
  intros H. pose proof (py_setitem_length _ _ _ _ H) as Hlen.
  revert H. unfold py_setitem, py_index. cbv zeta. rewrite Hlen.
  destruct ((0 <=? i) && _); cbn.
  - intros [= <-]. rewrite list_insert_insert_eq. reflexivity.
  - destruct (_ && (i <? 0)); cbn; [|discriminate].
    intros [= <-]. rewrite list_insert_insert_eq. reflexivity.
Qed.

(** Reading back the entry just written. *)
Lemma py_getitem_setitem l i x l' :
  py_setitem l i x = Ok l' -> py_getitem l' i = Ok x.
Proof.
  intros H. pose proof (py_setitem_length _ _ _ _ H) as Hlen.
  revert H. unfold py_setitem, py_getitem.
  destruct (py_index l i) as [k|] eqn:Hk; cbn; [|discriminate].
  intros [= <-].
  assert (py_index (<[k:=x]> l) i = Ok k) as ->.
  { revert Hk. unfold py_index. rewrite length_insert. trivial. }
  cbn. rewrite list_lookup_insert_eq; [reflexivity|].
  eapply py_index_lt; eauto.
Qed.

Lemma py_getitem_is_Ok_setitem l i x y :
  py_getitem l i = Ok y -> exists l', py_setitem l i x = Ok l'.
Proof.
  unfold py_getitem, py_setitem.
  destruct (py_index l i); cbn; [eauto|discriminate].
Qed.
End PyListFacts.

(** ** The packet codec *)

Lemma utf8_char_encodable c :
  (0xD800 <=? c) && (c <=? 0xDFFF) = false -> exists b, utf8_char c = Ok b.
Proof.
  intros H. unfold utf8_char. rewrite H.
  destruct (c <? 0x80); [eauto|].
  destruct (c <? 0x800); [eauto|].
  destruct (c <? 0x10000); eauto.
Qed.

Lemma encode_encodable s : encodable s -> exists b, encode s = Ok b.
Proof.
  induction 1 as [|c s Hc _ [bs IH]]; cbn.
  - eauto.
  - destruct (utf8_char_encodable c Hc) as [b ->]. cbn. rewrite IH. cbn. eauto.
Qed.

Lemma encode_ascii s : Forall (fun c => c < 0x80) s -> encode s = Ok s.
Proof.
  induction 1 as [|c s Hc _ IH]; cbn; [reflexivity|].
  unfold utf8_char.
  replace (c <? 0x80) with true by (symmetry; apply Z.ltb_lt; exact Hc).
  cbn. rewrite IH. reflexivity.
Qed.

Lemma format_device_name_encodable name :
  encodable name -> exists b, ProDjLink._format_device_name name = Ok b.
Proof.
  intros H. unfold ProDjLink._format_device_name.
  apply encode_encodable. unfold encodable, ljust.
  apply Forall_take, Forall_app. split; [exact H|].
  apply Forall_replicate. reflexivity.
Qed.

(** A name of ASCII characters fills exactly 20 bytes, whatever its length. *)
Lemma format_device_name_ascii name :
  Forall (fun c => c < 0x80) name ->
  exists b, ProDjLink._format_device_name name = Ok b /\ length b = 20%nat.
Proof.
  intros H. unfold ProDjLink._format_device_name.
  eexists. split.
  - apply encode_ascii. unfold ljust.
    apply Forall_take, Forall_app. split; [exact H|].
    apply Forall_replicate. reflexivity.
  - unfold ljust, ProDjLink._MAX_DEVICE_NAME_LEN.
    rewrite length_take, length_app, length_replicate. lia.
Qed.

Lemma format_DEVICE_NAME : ProDjLink._format_device_name DEVICE_NAME = Ok DEVICE_NAME_field.
Proof. reflexivity. Qed.

Lemma onair_pkt_DEVICE_NAME onair_ch :
  ProDjLink.onair_pkt DEVICE_NAME onair_ch = Ok (onair_bytes onair_ch).
Proof. unfold ProDjLink.onair_pkt. rewrite format_DEVICE_NAME. reflexivity. Qed.

Lemma fader_start_pkt_DEVICE_NAME channel stop :
  0 <= channel < 4 ->
  ProDjLink.fader_start_pkt DEVICE_NAME channel stop
  = Ok (fader_start_bytes (<[Z.to_nat channel := Z.b2z stop]> (replicate 4 2))).
Proof.
  intros H. unfold ProDjLink.fader_start_pkt. rewrite format_DEVICE_NAME.
  cbn [bind]. rewrite py_setitem_in_range by (cbn; lia). reflexivity.
Qed.

(** C2 (the code departs from the claim): the name is cut to 20 code
    points before it is encoded, not to 20 bytes.  The one-character name
    U+00E9 is padded to 20 characters and encodes to 21 bytes, so its
    on-air packet is one byte longer than the packet of an ASCII name; and
    a name holding a lone surrogate makes the encoder raise. *)
Theorem format_device_name_cuts_code_points :
  ProDjLink._format_device_name [0xE9] = Ok ([0xC3; 0xA9] ++ replicate 19 0) /\
  length ([0xC3; 0xA9] ++ replicate 19 0 : bytes) = 21%nat /\
  (exists p q,
      ProDjLink.onair_pkt [0xE9] [true; false] = Ok p /\
      ProDjLink.onair_pkt DEVICE_NAME [true; false] = Ok q /\
      length p = 44%nat /\ length q = 43%nat) /\
  ProDjLink._format_device_name [0xD800] = Raise UnicodeEncodeError /\
  ProDjLink.onair_pkt [0xD800] [true; false] = Raise UnicodeEncodeError.
Proof.
  split; [reflexivity|]. split; [reflexivity|]. split.
  - do 2 eexists. repeat split; reflexivity.
  - split; reflexivity.
Qed.

(** C7, counterexample: the name made of the lone surrogate U+D800 cannot
    be encoded, so for channel 0 of [0,4) [fader_start_pkt] raises
    [UnicodeEncodeError] and produces no packet at all. *)
Lemma fader_start_pkt_surrogate_name :
  0 <= 0 < 4 /\
  ProDjLink.fader_start_pkt [0xD800] 0 true = Raise UnicodeEncodeError /\
  ProDjLink.fader_start_pkt [0xD800] 0 false = Raise UnicodeEncodeError /\
  ~ exists pkt, ProDjLink.fader_start_pkt [0xD800] 0 true = Ok pkt.
Proof.
  split; [lia|]. split; [reflexivity|]. split; [reflexivity|].
  intros [pkt H]. discriminate H.
Qed.

(** C7, amended: for every device name that can be encoded (no lone
    surrogate among its code points), channel index in [0,4) and stop flag,
    [fader_start_pkt] produces a packet: the header, type 2, the formatted
    name, the tag and a tri-state array of exactly 4 entries, 1 (stop) or 0
    (play) at the channel index and 2 everywhere else.  No profile takes
    part, so the 4 entries do not depend on a channel count. *)
Theorem fader_start_pkt_tri_state (device_name : str) (channel : Z) (stop : bool) :
  encodable device_name ->
  0 <= channel < 4 ->
  exists (name : bytes) (ch_state : list Z),
    ProDjLink._format_device_name device_name = Ok name /\
    ProDjLink.fader_start_pkt device_name channel stop
    = Ok (ProDjLink._HEADER ++ [0x02] ++ name ++ [0x01; 0; 0; 0; 0x04] ++ ch_state) /\
    length ch_state = 4%nat /\
    ch_state !! Z.to_nat channel = Some (if stop then 1 else 0) /\
    (forall j, (j < 4)%nat -> j <> Z.to_nat channel -> ch_state !! j = Some 2).
Proof.
  intros Henc Hch.
  destruct (format_device_name_encodable _ Henc) as [name Hname].
  exists name, (<[Z.to_nat channel := Z.b2z stop]> (replicate 4 2)).
  assert (Hset : py_setitem (replicate 4 2) channel (Z.b2z stop)
                 = Ok (<[Z.to_nat channel := Z.b2z stop]> (replicate 4 2))).
  { apply py_setitem_in_range. cbn. lia. }
  split; [exact Hname|]. split.
  { unfold ProDjLink.fader_start_pkt. rewrite Hname. cbn [bind].
    rewrite Hset. reflexivity. }
  split; [apply length_insert|]. split.
  { rewrite list_lookup_insert_eq by (cbn; lia). destruct stop; reflexivity. }
  intros j Hj Hne. rewrite list_lookup_insert_ne by congruence.
  apply lookup_replicate_2. exact Hj.
Qed.

Lemma fader_start_pkt_tri_state_witness :
  exists (name : bytes) (ch_state : list Z),
    ProDjLink._format_device_name [0xE9; 0x44; 0x4A] = Ok name /\
    ProDjLink.fader_start_pkt [0xE9; 0x44; 0x4A] 1 true
    = Ok (ProDjLink._HEADER ++ [0x02] ++ name ++ [0x01; 0; 0; 0; 0x04] ++ ch_state) /\
    length ch_state = 4%nat /\
    ch_state !! Z.to_nat 1 = Some (if true then 1 else 0) /\
    (forall j, (j < 4)%nat -> j <> Z.to_nat 1 -> ch_state !! j = Some 2).
Proof.
  apply (fader_start_pkt_tri_state [0xE9; 0x44; 0x4A] 1 true).
  - unfold encodable. repeat constructor.
  - lia.
Defined.

(** ** The event handler *)

Lemma send_onair_eq self out_pkt :
  send_onair self out_pkt
  = Ok (set_last_onair_pkt (Some (onair_bytes (onair_channels self))) self,
        if bool_decide (last_onair_pkt self = Some (onair_bytes (onair_channels self)))
        then out_pkt else onair_bytes (onair_channels self)).
Proof. unfold send_onair. rewrite onair_pkt_DEVICE_NAME. reflexivity. Qed.

Lemma handle_event_dispatch djm self event self1 out_pkt send :
  dispatch djm (first_prev_event self event) event = Ok (self1, out_pkt, send) ->
  handle_event djm self event = Ok (finish event self1 out_pkt send).
Proof.
  intros H. unfold handle_event, finish. rewrite H. cbn [bind].
  destruct send; [rewrite send_onair_eq|]; reflexivity.
Qed.

Lemma handle_event_inv djm self event self' out :
  handle_event djm self event = Ok (self', out) ->
  exists self1 out_pkt send,
    dispatch djm (first_prev_event self event) event = Ok (self1, out_pkt, send) /\
    (self', out) = finish event self1 out_pkt send.
Proof.
  unfold handle_event.
  destruct (dispatch djm (first_prev_event self event) event)
    as [[[self1 out_pkt] send]|] eqn:Hd; cbn [bind]; [|discriminate].
  intros H. exists self1, out_pkt, send. split; [reflexivity|].
  unfold finish. destruct send; [rewrite send_onair_eq in H|]; cbn [bind] in H;
    congruence.
Qed.

Lemma handle_event_raise djm self event e :
  dispatch djm (first_prev_event self event) event = Raise e ->
  handle_event djm self event = Raise e.
Proof. intros H. unfold handle_event. rewrite H. reflexivity. Qed.

Lemma prev_event_finish event self out_pkt send :
  prev_event (fst (finish event self out_pkt send)) = Some event.
Proof. unfold finish. destruct send; reflexivity. Qed.

Lemma first_prev_event_fields self event :
  xfader_value (first_prev_event self event) = xfader_value self /\
  xfader_channel (first_prev_event self event) = xfader_channel self /\
  cross_fader_assign (first_prev_event self event) = cross_fader_assign self /\
  fader_value (first_prev_event self event) = fader_value self /\
  onair_fader (first_prev_event self event) = onair_fader self /\
  fader_th (first_prev_event self event) = fader_th self /\
  last_fader_start_pkt (first_prev_event self event) = last_fader_start_pkt self /\
  last_onair_pkt (first_prev_event self event) = last_onair_pkt self /\
  source_port (first_prev_event self event) = source_port self.
Proof. unfold first_prev_event. destruct (prev_event self); repeat split. Qed.

Lemma dispatch_cross_fader djm self value :
  dispatch djm self (Controller (CROSS_FADER djm) value)
  = Ok (set_xfader value
          (if value <=? FADER_TRESHOLD - Z.b2z (xfader_value self <? value)
           then "A"%string
           else if 127 - (FADER_TRESHOLD - Z.b2z (value <? xfader_value self)) <=? value
           then "B"%string
           else "AB"%string) self, [], true).
Proof. unfold dispatch. rewrite Z.eqb_refl. reflexivity. Qed.

(** C5: whatever the previous cross-fader value, a cross-fader change to 0
    selects side A (left bound) and a change to 127 selects side B (right
    bound); a value in [2,125] that arrives while the region is the middle
    one (AB) leaves it there.  The handler returns in all three cases. *)
Theorem cross_fader_bounds (djm : djm_enum) (self : MidiMain) (value : Z) :
  value = 0 \/ value = 127 \/
    (2 <= value <= 125 /\ xfader_channel self = "AB"%string) ->
  exists self' out_pkt,
    handle_event djm self (Controller (CROSS_FADER djm) value) = Ok (self', out_pkt) /\
    xfader_value self' = value /\
    xfader_channel self'
    = if value =? 0 then "A"%string
      else if value =? 127 then "B"%string else "AB"%string.
Proof.
  intros Hv.
  rewrite (handle_event_dispatch _ _ _ _ _ _ (dispatch_cross_fader djm _ value)).
  destruct (first_prev_event_fields self (Controller (CROSS_FADER djm) value))
    as (-> & _).
  do 2 eexists. split; [reflexivity|]. cbn.
  split; [reflexivity|].
  unfold FADER_TRESHOLD.
  destruct Hv as [-> | [-> | [Hr _]]].
  - destruct (xfader_value self <? 0), (0 <? xfader_value self); reflexivity.
  - destruct (xfader_value self <? 127), (127 <? xfader_value self); reflexivity.
  - replace (value =? 0) with false by (symmetry; apply Z.eqb_neq; lia).
    replace (value =? 127) with false by (symmetry; apply Z.eqb_neq; lia).
    destruct (xfader_value self <? value), (value <? xfader_value self); cbn;
      repeat match goal with
             | |- context [?a <=? ?b] =>
               replace (a <=? b) with false by (symmetry; apply Z.leb_gt; lia)
             end; reflexivity.
Qed.

Lemma cross_fader_bounds_witness :
  exists self' out_pkt,
    handle_event DJM850 (MidiMain_init DJM850 None) (Controller (CROSS_FADER DJM850) 100)
    = Ok (self', out_pkt) /\
    xfader_value self' = 100 /\
    xfader_channel self'
    = if 100 =? 0 then "A"%string
      else if 100 =? 127 then "B"%string else "AB"%string.
Proof.
  apply (cross_fader_bounds DJM850 (MidiMain_init DJM850 None) 100).
  right. right. split; [lia | reflexivity].
Defined.

Lemma in_range_true start stop x : start <= x < stop -> in_range start stop x = true.
Proof. intros H. unfold in_range. apply andb_true_iff. split; [apply Z.leb_le|apply Z.ltb_lt]; lia. Qed.

Lemma in_range_spec start stop x : in_range start stop x = true <-> start <= x < stop.
Proof. unfold in_range. rewrite andb_true_iff, Z.leb_le, Z.ltb_lt. tauto. Qed.

Lemma dispatch_channel_fader djm self param value old :
  param <> CROSS_FADER djm ->
  CH1_FADER djm <= param < CH1_FADER djm + CH_MAX djm ->
  (Z.to_nat (param - CH1_FADER djm) < length (onair_fader self))%nat ->
  fader_value self !! Z.to_nat (param - CH1_FADER djm) = Some old ->
  dispatch djm self (Controller param value)
  = Ok (set_onair_fader
          (<[Z.to_nat (param - CH1_FADER djm)
             := (fader_th self + Z.b2z (value <? old) <=? value)]> (onair_fader self))
          (set_fader_value
             (<[Z.to_nat (param - CH1_FADER djm) := value]> (fader_value self)) self),
        [], true).
Proof.
  intros Hne Hr Hlen Hold. unfold dispatch.
  apply Z.eqb_neq in Hne. rewrite Hne.
  rewrite in_range_true by exact Hr.
  pose proof (lookup_lt_Some _ _ _ Hold) as Hlt.
  rewrite (py_getitem_in_range _ _ old); [|lia|exact Hold]. cbn [bind].
  assert (Hset : py_setitem (fader_value self) (param - CH1_FADER djm) value
                 = Ok (<[Z.to_nat (param - CH1_FADER djm) := value]> (fader_value self))).
  { apply py_setitem_in_range. lia. }
  rewrite Hset. cbn [bind __update_onair_fader fader_value set_fader_value].
  rewrite (py_getitem_setitem _ _ _ _ Hset). cbn [bind onair_fader set_fader_value].
  rewrite py_setitem_in_range by lia. reflexivity.
Qed.

(** C6: a channel-fader change at offset [i] with new value [v], the stored
    level being [o], stores [v] as the level of channel [i] and sets the
    channel's on-air flag to [v >= fader_th + (1 if v < o else 0)]: the
    threshold is raised by one exactly when the fader moves down.  The
    other channels keep their level and flag. *)
Theorem channel_fader_change (djm : djm_enum) (self : MidiMain) (param value old : Z) :
  param <> CROSS_FADER djm ->
  CH1_FADER djm <= param < CH1_FADER djm + CH_MAX djm ->
  sized djm self ->
  fader_value self !! Z.to_nat (param - CH1_FADER djm) = Some old ->
  exists self' out_pkt,
    handle_event djm self (Controller param value) = Ok (self', out_pkt) /\
    fader_value self' !! Z.to_nat (param - CH1_FADER djm) = Some value /\
    onair_fader self' !! Z.to_nat (param - CH1_FADER djm)
    = Some (fader_th self + (if value <? old then 1 else 0) <=? value) /\
    (forall j, j <> Z.to_nat (param - CH1_FADER djm) ->
       fader_value self' !! j = fader_value self !! j /\
       onair_fader self' !! j = onair_fader self !! j) /\
    fader_th self' = fader_th self.
Proof.
  intros Hne Hr (_ & Hfv & Hon) Hold.
  set (ev := Controller param value).
  destruct (first_prev_event_fields self ev) as (_ & _ & _ & Efv & Eon & Eth & _).
  pose proof (lookup_lt_Some _ _ _ Hold) as Hlt.
  assert (Hd := dispatch_channel_fader djm (first_prev_event self ev) param value old Hne Hr).
  rewrite Efv, Eon, Eth in Hd.
  specialize (Hd ltac:(lia) Hold).
  rewrite (handle_event_dispatch _ _ _ _ _ _ Hd).
  do 2 eexists. split; [reflexivity|]. cbn.
  split; [apply list_lookup_insert_eq; lia|].
  split.
  { rewrite list_lookup_insert_eq by lia. destruct (value <? old); reflexivity. }
  split; [|exact Eth].
  intros j Hj. rewrite !list_lookup_insert_ne by congruence. split; reflexivity.
Qed.

Lemma channel_fader_change_witness :
  exists self' out_pkt,
    handle_event DJM850 (MidiMain_init DJM850 None) (Controller 18 5) = Ok (self', out_pkt) /\
    fader_value self' !! Z.to_nat (18 - CH1_FADER DJM850) = Some 5 /\
    onair_fader self' !! Z.to_nat (18 - CH1_FADER DJM850)
    = Some (fader_th (MidiMain_init DJM850 None) + (if 5 <? 0 then 1 else 0) <=? 5) /\
    (forall j, j <> Z.to_nat (18 - CH1_FADER DJM850) ->
       fader_value self' !! j = fader_value (MidiMain_init DJM850 None) !! j /\
       onair_fader self' !! j = onair_fader (MidiMain_init DJM850 None) !! j) /\
    fader_th self' = fader_th (MidiMain_init DJM850 None).
Proof.
  apply (channel_fader_change DJM850 (MidiMain_init DJM850 None) 18 5 0).
  - discriminate.
  - cbn. lia.
  - repeat split.
  - reflexivity.
Defined.

(** ** Fader-start buttons *)

Lemma assign_from_prev_event_eq djm self channel pe :
  prev_event self = Some pe ->
  0 <= channel < Z.of_nat (length (cross_fader_assign self)) ->
  assign_from_prev_event djm self channel
  = Ok (set_cross_fader_assign
          (assign_after_button djm (Some pe) (cross_fader_assign self) (Z.to_nat channel))
          self).
Proof.
  intros Hpe Hch. unfold assign_from_prev_event, assign_after_button. rewrite Hpe.
  destruct self; cbn in *.
  destruct pe as [pp pv| | |]; try reflexivity.
  destruct (pp =? CROSS_FADER djm).
  - rewrite py_setitem_in_range by exact Hch. reflexivity.
  - destruct (in_range _ _ pp); [|reflexivity].
    rewrite py_setitem_in_range by exact Hch. reflexivity.
Qed.

Lemma dispatch_fader_start djm self note velocity first_note pe :
  FADER_START1_NOTE djm = Member first_note ->
  first_note <> 0 ->
  first_note <= note < first_note + CH_MAX djm ->
  CH_MAX djm <= 4 ->
  length (cross_fader_assign self) = Z.to_nat (CH_MAX djm) ->
  prev_event self = Some pe ->
  let pkt := fader_start_bytes
               (<[Z.to_nat (note - first_note) := Z.b2z (velocity =? 0)]> (replicate 4 2)) in
  dispatch djm self (NoteOn note velocity)
  = Ok (set_cross_fader_assign
          (assign_after_button djm (Some pe) (cross_fader_assign self)
             (Z.to_nat (note - first_note)))
          (set_last_fader_start_pkt (Some pkt) self),
        if bool_decide (last_fader_start_pkt self = Some pkt) then [] else pkt,
        true).
Proof.
  intros Hb Hnz Hr Hmax Hlen Hpe pkt. unfold dispatch. rewrite Hb. cbn [attr_truthy bind].
  apply Z.eqb_neq in Hnz. rewrite Hnz.
  rewrite in_range_true by exact Hr.
  rewrite fader_start_pkt_DEVICE_NAME by lia. cbn [bind]. fold pkt.
  rewrite (assign_from_prev_event_eq _ _ _ pe); [reflexivity|exact Hpe|].
  cbn [cross_fader_assign set_last_fader_start_pkt]. lia.
Qed.

Lemma handle_event_fader_start djm self note velocity first_note :
  FADER_START1_NOTE djm = Member first_note ->
  first_note <> 0 ->
  first_note <= note < first_note + CH_MAX djm ->
  CH_MAX djm <= 4 ->
  length (cross_fader_assign self) = Z.to_nat (CH_MAX djm) ->
  exists self' out_pkt,
    handle_event djm self (NoteOn note velocity) = Ok (self', out_pkt) /\
    prev_event self' = Some (NoteOn note velocity) /\
    cross_fader_assign self'
    = assign_after_button djm (prev_event self) (cross_fader_assign self)
        (Z.to_nat (note - first_note)).
Proof.
  intros Hb Hnz Hr Hmax Hlen.
  set (ev := NoteOn note velocity).
  destruct (first_prev_event_fields self ev) as (_ & _ & Eas & _).
  assert (Hpe : exists pe, prev_event (first_prev_event self ev) = Some pe /\
                  assign_after_button djm (Some pe) (cross_fader_assign self)
                    (Z.to_nat (note - first_note))
                  = assign_after_button djm (prev_event self) (cross_fader_assign self)
                      (Z.to_nat (note - first_note))).
  { unfold first_prev_event. destruct (prev_event self) as [pe|] eqn:E.
    - exists pe. rewrite E. split; reflexivity.
    - exists ev. split; reflexivity. }
  destruct Hpe as (pe & Hpe & Hsame).
  assert (Hd := dispatch_fader_start djm (first_prev_event self ev) note velocity
                  first_note pe Hb Hnz Hr Hmax).
  rewrite Eas in Hd. specialize (Hd Hlen Hpe). cbv zeta in Hd.
  rewrite (handle_event_dispatch _ _ _ _ _ _ Hd).
  do 2 eexists. split; [reflexivity|]. cbn. split; [reflexivity|]. exact Hsame.
Qed.

(** C8: a fader-start note for channel offset [i] is handled, and
    - if the event handled just before was a cross-fader position change,
      [assign[i]] becomes 0 when that change's value is at least 64 and 127
      otherwise;
    - if it was a channel-fader change, of any channel, [assign[i]] becomes 64;
    - otherwise (another controller, another kind of event, or no earlier
      event at all) the assignment list is unchanged.
    In the first two cases the other channels keep their assignment. *)
Theorem fader_start_assign (djm : djm_enum) (self : MidiMain)
    (note velocity first_note : Z) :
  FADER_START1_NOTE djm = Member first_note ->
  first_note <> 0 ->
  first_note <= note < first_note + CH_MAX djm ->
  CH_MAX djm <= 4 ->
  sized djm self ->
  exists self' out_pkt,
    handle_event djm self (NoteOn note velocity) = Ok (self', out_pkt) /\
    (forall prev_value,
        prev_event self = Some (Controller (CROSS_FADER djm) prev_value) ->
        cross_fader_assign self'
        = <[Z.to_nat (note - first_note) := if 64 <=? prev_value then 0 else 127]>
            (cross_fader_assign self)) /\
    (forall prev_param prev_value,
        prev_event self = Some (Controller prev_param prev_value) ->
        prev_param <> CROSS_FADER djm ->
        CH1_FADER djm <= prev_param < CH1_FADER djm + CH_MAX djm ->
        cross_fader_assign self'
        = <[Z.to_nat (note - first_note) := 64]> (cross_fader_assign self)) /\
    ((forall prev_param prev_value,
         prev_event self = Some (Controller prev_param prev_value) ->
         prev_param <> CROSS_FADER djm /\
         ~ CH1_FADER djm <= prev_param < CH1_FADER djm + CH_MAX djm) ->
     cross_fader_assign self' = cross_fader_assign self).
Proof.
  intros Hb Hnz Hr Hmax (Hlen & _).
  destruct (handle_event_fader_start djm self note velocity first_note Hb Hnz Hr Hmax Hlen)
    as (self' & out_pkt & Hh & _ & Has).
  exists self', out_pkt. split; [exact Hh|]. rewrite Has. clear Hh Has.
  unfold assign_after_button. split; [|split].
  - intros pv ->. rewrite Z.eqb_refl. reflexivity.
  - intros pp pv -> Hne Hin. apply Z.eqb_neq in Hne. rewrite Hne.
    rewrite in_range_true by exact Hin. reflexivity.
  - intros Hother. destruct (prev_event self) as [[pp pv| | |]|]; try reflexivity.
    destruct (Hother pp pv eq_refl) as [Hne Hout].
    apply Z.eqb_neq in Hne. rewrite Hne.
    destruct (in_range _ _ pp) eqn:E; [|reflexivity].
    apply in_range_spec in E. contradiction.
Qed.

Lemma fader_start_assign_witness :
  let self := set_prev_event (Some (Controller 11 0)) (MidiMain_init DJM850 None) in
  exists self' out_pkt,
    handle_event DJM850 self (NoteOn 103 0) = Ok (self', out_pkt) /\
    (forall prev_value,
        prev_event self = Some (Controller (CROSS_FADER DJM850) prev_value) ->
        cross_fader_assign self'
        = <[Z.to_nat (103 - 102) := if 64 <=? prev_value then 0 else 127]>
            (cross_fader_assign self)) /\
    (forall prev_param prev_value,
        prev_event self = Some (Controller prev_param prev_value) ->
        prev_param <> CROSS_FADER DJM850 ->
        CH1_FADER DJM850 <= prev_param < CH1_FADER DJM850 + CH_MAX DJM850 ->
        cross_fader_assign self'
        = <[Z.to_nat (103 - 102) := 64]> (cross_fader_assign self)) /\
    ((forall prev_param prev_value,
         prev_event self = Some (Controller prev_param prev_value) ->
         prev_param <> CROSS_FADER DJM850 /\
         ~ CH1_FADER DJM850 <= prev_param < CH1_FADER DJM850 + CH_MAX DJM850) ->
     cross_fader_assign self' = cross_fader_assign self).
Proof.
  apply (fader_start_assign DJM850
           (set_prev_event (Some (Controller 11 0)) (MidiMain_init DJM850 None))
           103 0 102).
  - reflexivity.
  - discriminate.
  - cbn. lia.
  - cbn. lia.
  - repeat split.
Defined.

Lemma handle_event_prev_event djm self event self' out_pkt :
  handle_event djm self event = Ok (self', out_pkt) -> prev_event self' = Some event.
Proof.
  intros H. apply handle_event_inv in H as (s1 & o1 & b1 & _ & E).
  pose proof (prev_event_finish event s1 o1 b1) as P. rewrite <- E in P. exact P.
Qed.

(** C10: a fresh engine, of any profile, takes its first event as its own
    predecessor before handling it (handling it is handling it with
    [prev_event] already set to it); hence a fader-start note that arrives
    first is handled without touching the cross-fader assignment, the note
    not being a controller event; and after every call that handled an
    event, on any profile and engine, [prev_event] is that event. *)
Theorem first_event_own_predecessor (djm : djm_enum) (port : option string) :
  let fresh := MidiMain_init djm port in
  prev_event fresh = None /\
  (forall event,
      first_prev_event fresh event = set_prev_event (Some event) fresh /\
      prev_event (first_prev_event fresh event) = Some event /\
      handle_event djm fresh event
      = handle_event djm (set_prev_event (Some event) fresh) event) /\
  (forall note velocity first_note,
      FADER_START1_NOTE djm = Member first_note ->
      first_note <> 0 ->
      first_note <= note < first_note + CH_MAX djm ->
      CH_MAX djm <= 4 ->
      exists self' out_pkt,
        handle_event djm fresh (NoteOn note velocity) = Ok (self', out_pkt) /\
        cross_fader_assign self' = cross_fader_assign fresh /\
        prev_event self' = Some (NoteOn note velocity)) /\
  (forall self event self' out_pkt,
      handle_event djm self event = Ok (self', out_pkt) ->
      prev_event self' = Some event).
Proof.
  intros fresh.
  split; [reflexivity|].
  split; [intros event; split; [reflexivity|split; reflexivity]|]. split.
  - intros note velocity first_note Hb Hnz Hr Hmax.
    destruct (handle_event_fader_start djm fresh note velocity first_note Hb Hnz Hr Hmax)
      as (self' & out_pkt & Hh & Hp & Has).
    { unfold fresh. cbn. apply length_replicate. }
    exists self', out_pkt. repeat split; assumption.
  - intros self event self' out_pkt. apply handle_event_prev_event.
Qed.

Lemma first_event_own_predecessor_witness :
  (exists self' out_pkt,
      handle_event DJM850 (MidiMain_init DJM850 None) (NoteOn 104 127)
      = Ok (self', out_pkt) /\
      cross_fader_assign self' = cross_fader_assign (MidiMain_init DJM850 None) /\
      prev_event self' = Some (NoteOn 104 127)) /\
  (exists self' out_pkt,
      handle_event DJM250MK2 (MidiMain_init DJM250MK2 None) (Controller 17 5)
      = Ok (self', out_pkt) /\
      prev_event self' = Some (Controller 17 5)).
Proof.
  split.
  - apply (proj1 (proj2 (proj2 (first_event_own_predecessor DJM850 None)))
             104 127 102).
    + reflexivity.
    + discriminate.
    + cbn. lia.
    + cbn. lia.
  - do 2 eexists. split; [vm_compute; reflexivity|].
    eapply (proj2 (proj2 (proj2 (first_event_own_predecessor DJM250MK2 None)))
              (MidiMain_init DJM250MK2 None) (Controller 17 5)).
    vm_compute. reflexivity.
Defined.

(** ** What the branches of the handler leave alone *)

Lemma py_getitem_inv {A} (l : list A) i x :
  0 <= i -> py_getitem l i = Ok x -> l !! Z.to_nat i = Some x.
Proof.
  intros Hi. unfold py_getitem, py_index. cbv zeta.
  destruct ((0 <=? i) && _) eqn:E1; cbn [bind].
  - destruct (l !! Z.to_nat i); [congruence|discriminate].
  - replace (i <? 0) with false by (symmetry; apply Z.ltb_ge; lia).
    rewrite andb_false_r. discriminate.
Qed.

Lemma py_setitem_inv {A} (l : list A) i x l' :
  0 <= i -> py_setitem l i x = Ok l' ->
  i < Z.of_nat (length l) /\ l' = <[Z.to_nat i := x]> l.
Proof.
  intros Hi. unfold py_setitem, py_index. cbv zeta.
  destruct ((0 <=? i) && _) eqn:E1; cbn [bind].
  - apply andb_true_iff in E1 as [_ E1]. apply Z.ltb_lt in E1.
    intros [= <-]. split; [exact E1|reflexivity].
  - replace (i <? 0) with false by (symmetry; apply Z.ltb_ge; lia).
    rewrite andb_false_r. discriminate.
Qed.

Lemma update_onair_fader_inv self direction_down th upd_idx self' :
  __update_onair_fader self direction_down th upd_idx = Ok self' ->
  self' = set_onair_fader (onair_fader self') self /\
  length (onair_fader self') = length (onair_fader self).
Proof.
  revert self. induction upd_idx as [|i idx IH]; intros self; cbn.
  - intros [= <-]. destruct self; split; reflexivity.
  - destruct (py_getitem (fader_value self) i) as [v|]; cbn [bind]; [|discriminate].
    destruct (py_setitem (onair_fader self) i _) as [onair|] eqn:Hs; cbn [bind];
      [|discriminate].
    intros H. apply IH in H as [H1 H2]. split.
    + rewrite H1. reflexivity.
    + rewrite H2. cbn. eapply py_setitem_length; eauto.
Qed.

Lemma assign_from_prev_event_inv djm self channel self' :
  assign_from_prev_event djm self channel = Ok self' ->
  self' = set_cross_fader_assign (cross_fader_assign self') self.
Proof.
  unfold assign_from_prev_event.
  destruct (prev_event self) as [[pp pv| | |]|]; try discriminate;
    try (intros [= <-]; destruct self; reflexivity).
  destruct (pp =? CROSS_FADER djm).
  - destruct (py_setitem _ _ _); cbn [bind]; [|discriminate]. intros [= <-]. reflexivity.
  - destruct (in_range _ _ pp).
    + destruct (py_setitem _ _ _); cbn [bind]; [|discriminate]. intros [= <-]. reflexivity.
    + intros [= <-]. destruct self; reflexivity.
Qed.

(** The bytes the branches produce are empty or the fader-start packet
    they have just stored. *)
Lemma dispatch_out djm self event self1 out_pkt send :
  dispatch djm self event = Ok (self1, out_pkt, send) ->
  out_pkt = [] \/
  (last_fader_start_pkt self1 = Some out_pkt /\
   exists ch_state, out_pkt = fader_start_bytes ch_state).
Proof.
  intros H. unfold dispatch in H.
  destruct event as [param value|note velocity| |]; try (left; congruence).
  - crack H; left; congruence.
  - destruct (attr_truthy (FADER_START1_NOTE djm)) as [[b|]|]; cbn [bind] in H;
      try (left; congruence).
    destruct (in_range b (b + CH_MAX djm) note) eqn:Hr; [|left; congruence].
    unfold ProDjLink.fader_start_pkt in H. rewrite format_DEVICE_NAME in H.
    cbn [bind] in H.
    destruct (py_setitem (replicate 4 2) (note - b) (Z.b2z (velocity =? 0)))
      as [ch_state|]; cbn [bind] in H; [|discriminate].
    destruct (assign_from_prev_event _ _ _) as [s2|] eqn:Ha; cbn [bind] in H;
      [|discriminate].
    apply assign_from_prev_event_inv in Ha.
    injection H as <- <- <-.
    destruct (bool_decide _); [left; reflexivity|right].
    split; [rewrite Ha; reflexivity|]. exists ch_state. reflexivity.
Qed.

Lemma fader_start_bytes_not_onair ch_state onair_ch :
  fader_start_bytes ch_state <> onair_bytes onair_ch.
Proof. unfold fader_start_bytes, onair_bytes. cbn. discriminate. Qed.

Lemma onair_bytes_not_nil onair_ch : onair_bytes onair_ch <> [].
Proof. unfold onair_bytes. cbn. discriminate. Qed.

(** A call returns nothing, the fader-start packet or the on-air packet:
    never both packets. *)
Lemma handle_event_one_packet djm self event self' out_pkt :
  handle_event djm self event = Ok (self', out_pkt) ->
  out_pkt = [] \/
  (exists ch_state, out_pkt = fader_start_bytes ch_state) \/
  out_pkt = onair_bytes (onair_channels self').
Proof.
  intros H. apply handle_event_inv in H as (s1 & o1 & send & Hd & E).
  apply dispatch_out in Hd. unfold finish in E.
  destruct send.
  - injection E as -> ->. destruct (bool_decide _).
    + destruct Hd as [->|[_ Hfs]]; [left; reflexivity|right; left; exact Hfs].
    + right. right. reflexivity.
  - injection E as -> ->.
    destruct Hd as [->|[_ Hfs]]; [left; reflexivity|right; left; exact Hfs].
Qed.

(** C1 (the code departs from the claim): a note event that changes both
    the fader-start state and the on-air vector returns one packet, the
    on-air one.  On a DJM-850, after the channel 1 fader goes up and the
    cross-fader goes fully left, a play press on channel 1 stores the
    fader-start packet as the last one sent and assigns the channel to the
    right; the on-air packet then differs from the last one as well and
    replaces the fader-start packet in [out_pkt]. *)
Theorem fader_start_packet_overwritten :
  exists self self',
    run DJM850 (MidiMain_init DJM850 (Some "DJM-850"%string))
      [Controller 17 100; Controller 11 0]
    = Ok (self, [onair_bytes [true; false; false; false]; []]) /\
    last_fader_start_pkt self = None /\
    last_onair_pkt self = Some (onair_bytes [true; false; false; false]) /\
    handle_event DJM850 self (NoteOn 102 100)
    = Ok (self', onair_bytes [false; false; false; false]) /\
    last_fader_start_pkt self' = Some (fader_start_bytes [0; 2; 2; 2]) /\
    last_onair_pkt self' = Some (onair_bytes [false; false; false; false]) /\
    onair_bytes [false; false; false; false] <> fader_start_bytes [0; 2; 2; 2].
Proof.
  do 2 eexists.
  split; [vm_compute; reflexivity|].
  split; [reflexivity|]. split; [reflexivity|].
  split; [vm_compute; reflexivity|].
  split; [reflexivity|]. split; [reflexivity|].
  intros H. symmetry in H. exact (fader_start_bytes_not_onair _ _ H).
Qed.

(** ** Unrecognized events *)

(** C9 (the code departs from the claim): [DJM750] and [DJM750MK2] are
    plain [IntEnum] classes without [FADER_START1_NOTE], so the test of a
    note-on event looks up a constant the class does not have: every
    note-on event makes the handler raise [AttributeError], whatever the
    engine's state.  The classes built on [DJMEnumBase] answer [None]. *)
Theorem note_on_raises_on_djm750 (self : MidiMain) (note velocity : Z) :
  handle_event DJM750 self (NoteOn note velocity) = Raise AttributeError /\
  handle_event DJM750MK2 self (NoteOn note velocity) = Raise AttributeError /\
  handle_event DJM750 (MidiMain_init DJM750 (Some "DJM-750"%string)) (NoteOn 60 100)
  = Raise AttributeError.
Proof. repeat split; apply handle_event_raise; reflexivity. Qed.

(** Where the profile's constants can be looked up, an event outside every
    recognized range is inert: no packet, and only [prev_event] changes. *)
Lemma unrecognized_event_inert djm self event :
  unrecognized djm event ->
  handle_event djm self event = Ok (set_prev_event (Some event) self, []).
Proof.
  intros Hu.
  assert (Hd : dispatch djm (first_prev_event self event) event
               = Ok (first_prev_event self event, [], false)).
  { unfold dispatch. destruct event as [param value|note velocity| |]; try reflexivity.
    - destruct Hu as (H1 & H2 & H3 & H4).
      apply Z.eqb_neq in H1. rewrite H1.
      destruct (in_range (CH1_FADER djm) _ param) eqn:E2;
        [apply in_range_spec in E2; contradiction|].
      destruct (in_range (FIRST_CROSS_FADER_ASSIGN djm) _ param) eqn:E3;
        [apply in_range_spec in E3; contradiction|].
      destruct H4 as [H4|(c & H4 & Hc)]; rewrite H4; cbn; [reflexivity|].
      apply Z.eqb_neq in Hc. rewrite Hc. reflexivity.
    - destruct Hu as [Hu|[(b & Hu & ->)|(b & Hu & Hr)]]; rewrite Hu; cbn;
        try reflexivity.
      destruct (b =? 0); [reflexivity|].
      destruct (in_range b _ note) eqn:E; [apply in_range_spec in E; contradiction|].
      reflexivity. }
  rewrite (handle_event_dispatch _ _ _ _ _ _ Hd). cbn [finish].
  unfold first_prev_event. destruct (prev_event self); reflexivity.
Qed.

(** ** The cross-fader assignment of two-channel mixers *)

Lemma finish_cross_fader_assign event self1 out_pkt send self' out :
  (self', out) = finish event self1 out_pkt send ->
  cross_fader_assign self' = cross_fader_assign self1.
Proof. unfold finish. destruct send; intros [= -> _]; reflexivity. Qed.

Lemma dispatch_assign_two_channels djm self event self1 out_pkt send :
  CH_MAX djm = 2 ->
  FADER_START1_NOTE djm = AttrNone ->
  length (cross_fader_assign self) = 2%nat ->
  dispatch djm self event = Ok (self1, out_pkt, send) ->
  cross_fader_assign self1 = cross_fader_assign self \/
  exists value, cross_fader_assign self1 = [value; 127 - value].
Proof.
  intros Hmax Hfs Hlen H. unfold dispatch in H.
  destruct event as [param value|note velocity| |].
  - destruct (param =? CROSS_FADER djm).
    { injection H as <- _ _. left. reflexivity. }
    destruct (in_range (CH1_FADER djm) _ param).
    { destruct (py_getitem _ _) as [old|]; cbn [bind] in H; [|discriminate].
      destruct (py_setitem _ _ _) as [fv|]; cbn [bind] in H; [|discriminate].
      destruct (__update_onair_fader _ _ _ _) as [s2|] eqn:Hu; cbn [bind] in H;
        [|discriminate].
      apply update_onair_fader_inv in Hu as [Hu _].
      injection H as <- _ _. left. rewrite Hu. reflexivity. }
    destruct (in_range (FIRST_CROSS_FADER_ASSIGN djm) _ param).
    { rewrite Hmax in H. cbn [Z.eqb Pos.eqb] in H.
      destruct (cross_fader_assign self) as [|a [|b [|]]]; try discriminate Hlen.
      cbn in H. injection H as <- _ _. right. exists value. reflexivity. }
    destruct (attr_eqb param (CH_FADER djm)) as [[|]|]; cbn [bind] in H;
      [| |discriminate].
    + destruct (fader_th self =? _).
      * cbn [bind] in H. injection H as <- _ _. left. reflexivity.
      * destruct (__update_onair_fader _ _ _ _) as [s2|] eqn:Hu; cbn [bind] in H;
          [|discriminate].
        apply update_onair_fader_inv in Hu as [Hu _].
        injection H as <- _ _. left. rewrite Hu. reflexivity.
    + injection H as <- _ _. left. reflexivity.
  - rewrite Hfs in H. cbn in H. injection H as <- _ _. left. reflexivity.
  - injection H as <- _ _. left. reflexivity.
  - injection H as <- _ _. left. reflexivity.
Qed.

Lemma handle_event_assign_two_channels djm self event self' out_pkt :
  CH_MAX djm = 2 ->
  FADER_START1_NOTE djm = AttrNone ->
  length (cross_fader_assign self) = 2%nat ->
  handle_event djm self event = Ok (self', out_pkt) ->
  cross_fader_assign self' = cross_fader_assign self \/
  exists value, cross_fader_assign self' = [value; 127 - value].
Proof.
  intros Hmax Hfs Hlen H.
  apply handle_event_inv in H as (s1 & o1 & send & Hd & E).
  apply finish_cross_fader_assign in E. rewrite E.
  destruct (first_prev_event_fields self event) as (_ & _ & Eas & _).
  apply (dispatch_assign_two_channels djm _ _ _ _ _ Hmax Hfs) in Hd;
    rewrite Eas in *; [exact Hd|exact Hlen].
Qed.

Lemma dispatch_cross_fader_assign_two_channels djm self param value a b :
  CH_MAX djm = 2 ->
  param <> CROSS_FADER djm ->
  ~ CH1_FADER djm <= param < CH1_FADER djm + CH_MAX djm ->
  FIRST_CROSS_FADER_ASSIGN djm <= param < FIRST_CROSS_FADER_ASSIGN djm + CH_MAX djm ->
  cross_fader_assign self = [a; b] ->
  dispatch djm self (Controller param value)
  = Ok (set_cross_fader_assign [value; 127 - value] self, [], true).
Proof.
  intros Hmax Hne Hch Has Hl. unfold dispatch.
  apply Z.eqb_neq in Hne. rewrite Hne.
  destruct (in_range (CH1_FADER djm) _ param) eqn:E;
    [apply in_range_spec in E; contradiction|].
  rewrite in_range_true by exact Has.
  rewrite Hmax, Hl. reflexivity.
Qed.

(** C3, counterexample: the fresh engine of the two-channel DJM-250MK2,
    which is reachable, has the assignment [[64, 64]], whose sum is 128. *)
Lemma fresh_assign_not_mirrored :
  CH_MAX DJM250MK2 = 2 /\
  reachable DJM250MK2 (MidiMain_init DJM250MK2 None) /\
  cross_fader_assign (MidiMain_init DJM250MK2 None) = [64; 64] /\
  ~ assign_mirrored (MidiMain_init DJM250MK2 None).
Proof.
  split; [reflexivity|]. split; [constructor|]. split; [reflexivity|].
  intros (a & b & Hab & Hsum). cbn in Hab. injection Hab as <- <-. discriminate.
Qed.

(** C3, amended: on a two-channel profile (these have no fader-start
    notes) a fresh engine has the neutral assignment [[64, 64]]; handling a
    cross-fader-assign change with value [v] yields [assign = [v, 127 - v]];
    every reachable engine has either the initial [[64, 64]] or an
    assignment with [assign[0] + assign[1] == 127]; and once the sum is 127
    every handled event keeps it. *)
Theorem two_channel_assign (djm : djm_enum) :
  CH_MAX djm = 2 ->
  FADER_START1_NOTE djm = AttrNone ->
  (forall port, cross_fader_assign (MidiMain_init djm port) = [64; 64]) /\
  (forall self param value,
      sized djm self ->
      param <> CROSS_FADER djm ->
      ~ CH1_FADER djm <= param < CH1_FADER djm + CH_MAX djm ->
      FIRST_CROSS_FADER_ASSIGN djm <= param < FIRST_CROSS_FADER_ASSIGN djm + CH_MAX djm ->
      exists self' out_pkt,
        handle_event djm self (Controller param value) = Ok (self', out_pkt) /\
        cross_fader_assign self' = [value; 127 - value] /\
        assign_mirrored self') /\
  (forall self,
      reachable djm self ->
      cross_fader_assign self = [64; 64] \/ assign_mirrored self) /\
  (forall self event self' out_pkt,
      assign_mirrored self ->
      handle_event djm self event = Ok (self', out_pkt) ->
      assign_mirrored self').
Proof.
  intros Hmax Hfs.
  assert (Hmir : forall v, exists a b, [v; 127 - v] = [a; b] /\ a + b = 127).
  { intros v. exists v, (127 - v). split; [reflexivity|lia]. }
  assert (Hkeep : forall self event self' out_pkt,
             assign_mirrored self ->
             handle_event djm self event = Ok (self', out_pkt) ->
             assign_mirrored self').
  { intros self event self' out_pkt (a & b & Hab & Hsum) H.
    apply (handle_event_assign_two_channels djm _ _ _ _ Hmax Hfs) in H;
      [|rewrite Hab; reflexivity].
    unfold assign_mirrored. destruct H as [->|[v ->]]; [eauto|apply Hmir]. }
  split; [|split; [|split]].
  - intros port. cbn. rewrite Hmax. reflexivity.
  - intros self param value (Hlen & _) Hne Hch Has.
    rewrite Hmax in Hlen.
    destruct (cross_fader_assign self) as [|a [|b [|]]] eqn:Hl; try discriminate Hlen.
    destruct (first_prev_event_fields self (Controller param value))
      as (_ & _ & Eas & _).
    rewrite Hl in Eas.
    rewrite (handle_event_dispatch _ _ _ _ _ _
               (dispatch_cross_fader_assign_two_channels djm _ param value a b
                  Hmax Hne Hch Has Eas)).
    do 2 eexists. split; [reflexivity|]. cbn. split; [reflexivity|apply Hmir].
  - induction 1 as [port|self event self' out_pkt _ IH H].
    + left. cbn. rewrite Hmax. reflexivity.
    + destruct IH as [IH|IH]; [|right; eapply Hkeep; eauto].
      apply (handle_event_assign_two_channels djm _ _ _ _ Hmax Hfs) in H;
        [|rewrite IH; reflexivity].
      unfold assign_mirrored.
      destruct H as [->|[v ->]]; [left; exact IH|right; apply Hmir].
  - exact Hkeep.
Qed.

Lemma two_channel_assign_witness :
  (forall port, cross_fader_assign (MidiMain_init DJM250MK2 port) = [64; 64]) /\
  (forall self param value,
      sized DJM250MK2 self ->
      param <> CROSS_FADER DJM250MK2 ->
      ~ CH1_FADER DJM250MK2 <= param < CH1_FADER DJM250MK2 + CH_MAX DJM250MK2 ->
      FIRST_CROSS_FADER_ASSIGN DJM250MK2 <= param
        < FIRST_CROSS_FADER_ASSIGN DJM250MK2 + CH_MAX DJM250MK2 ->
      exists self' out_pkt,
        handle_event DJM250MK2 self (Controller param value) = Ok (self', out_pkt) /\
        cross_fader_assign self' = [value; 127 - value] /\
        assign_mirrored self') /\
  (forall self,
      reachable DJM250MK2 self ->
      cross_fader_assign self = [64; 64] \/ assign_mirrored self) /\
  (forall self event self' out_pkt,
      assign_mirrored self ->
      handle_event DJM250MK2 self event = Ok (self', out_pkt) ->
      assign_mirrored self').
Proof. apply (two_channel_assign DJM250MK2); reflexivity. Defined.

(** ** Delivering the same controller event again *)

Lemma same_core_finish event self out_pkt send :
  same_core (fst (finish event self out_pkt send)) self.
Proof. unfold finish. destruct send; repeat split. Qed.

Lemma first_prev_event_set self event pe :
  prev_event self = Some pe -> first_prev_event self event = self.
Proof. intros H. unfold first_prev_event. rewrite H. reflexivity. Qed.

(** If the branches, run on any engine with the fields of [self], change
    nothing and produce nothing, handling the event again returns nothing
    and leaves the engine as it is. *)
Lemma redeliver djm event self out_pkt send :
  (forall self1, same_core self1 self ->
                 dispatch djm self1 event = Ok (self1, [], send)) ->
  handle_event djm (fst (finish event self out_pkt send)) event
  = Ok (fst (finish event self out_pkt send), []).
Proof.
  intros Hagain.
  set (s1 := fst (finish event self out_pkt send)).
  assert (Hp : prev_event s1 = Some event) by apply prev_event_finish.
  assert (Hd : dispatch djm (first_prev_event s1 event) event = Ok (s1, [], send)).
  { rewrite (first_prev_event_set _ _ _ Hp). apply Hagain, same_core_finish. }
  rewrite (handle_event_dispatch _ _ _ _ _ _ Hd).
  unfold s1, finish. destruct send; cbn [fst].
  - f_equal. f_equal.
    change (onair_channels
              (set_prev_event (Some event)
                 (set_last_onair_pkt (Some (onair_bytes (onair_channels self))) self)))
      with (onair_channels self).
    cbn [last_onair_pkt set_prev_event set_last_onair_pkt].
    rewrite bool_decide_eq_true_2 by reflexivity. reflexivity.
  - reflexivity.
Qed.

Lemma dispatch_controller_again djm self param value self' out_pkt send :
  dispatch djm self (Controller param value) = Ok (self', out_pkt, send) ->
  (param = CROSS_FADER djm ->
   ~ (value = 1 /\ xfader_value self < 1) /\
   ~ (value = 126 /\ 126 < xfader_value self)) ->
  (param <> CROSS_FADER djm ->
   CH1_FADER djm <= param < CH1_FADER djm + CH_MAX djm ->
   forall old, fader_value self !! Z.to_nat (param - CH1_FADER djm) = Some old ->
               ~ (value = fader_th self /\ value < old)) ->
  forall self1, same_core self1 self' ->
                dispatch djm self1 (Controller param value) = Ok (self1, [], send).
Proof.
  intros Hd Hx Hf self1 (Cxv & Cxc & Cas & Cfv & Con & Cth).
  unfold dispatch in Hd |- *.
  destruct (param =? CROSS_FADER djm) eqn:E1.
  { apply Z.eqb_eq in E1. destruct (Hx E1) as [Hx1 Hx2].
    injection Hd as <- <- <-. cbn in Cxv, Cxc.
    rewrite Cxv, Z.ltb_irrefl.
    match goal with
    | |- Ok (set_xfader _ ?c _, _, _) = _ =>
        assert (Hc : c = xfader_channel self1)
    end.
    { rewrite Cxc. unfold FADER_TRESHOLD. cbn [Z.b2z].
      repeat match goal with
             | |- context [?a <? ?b] => destruct (Z.ltb_spec a b); cbn [Z.b2z]
             | |- context [?a <=? ?b] => destruct (Z.leb_spec a b)
             end; try reflexivity; exfalso; lia. }
    rewrite Hc. f_equal. f_equal. f_equal. same_state self1. }
  destruct (in_range (CH1_FADER djm) _ param) eqn:E2.
  { apply Z.eqb_neq in E1. apply in_range_spec in E2.
    destruct (py_getitem (fader_value self) _) as [old|] eqn:Hg; cbn [bind] in Hd;
      [|discriminate].
    destruct (py_setitem (fader_value self) _ value) as [fv|] eqn:Hs; cbn [bind] in Hd;
      [|discriminate].
    cbn [__update_onair_fader bind fader_value set_fader_value onair_fader
           set_onair_fader] in Hd.
    rewrite (py_getitem_setitem _ _ _ _ Hs) in Hd. cbn [bind] in Hd.
    destruct (py_setitem (onair_fader self) _ _) as [on|] eqn:Ho; cbn [bind] in Hd;
      [|discriminate].
    injection Hd as <- <- <-. cbn in Cfv, Con, Cth.
    apply py_getitem_inv in Hg; [|lia].
    specialize (Hf E1 E2 old Hg).
    rewrite Cfv, Cth. rewrite (py_getitem_setitem _ _ _ _ Hs). cbn [bind].
    rewrite (py_setitem_again _ _ _ _ Hs). cbn [bind].
    cbn [__update_onair_fader bind fader_value set_fader_value onair_fader
           set_onair_fader].
    rewrite (py_getitem_setitem _ _ _ _ Hs). cbn [bind]. rewrite Con.
    assert (Hb : (fader_th self + Z.b2z (value <? value) <=? value)
                 = (fader_th self + Z.b2z (value <? old) <=? value)).
    { rewrite Z.ltb_irrefl. cbn [Z.b2z].
      destruct (Z.ltb_spec value old); cbn [Z.b2z];
        repeat match goal with
               | |- context [?a <=? ?b] => destruct (Z.leb_spec a b)
               end; try reflexivity; exfalso; lia. }
    rewrite Hb, (py_setitem_again _ _ _ _ Ho). cbn [bind].
    f_equal. f_equal. f_equal. same_state self1. }
  destruct (in_range (FIRST_CROSS_FADER_ASSIGN djm) _ param) eqn:E3.
  { destruct (CH_MAX djm =? 2).
    - destruct (py_setitem (cross_fader_assign self) 0 value) as [a1|] eqn:H1;
        cbn [bind] in Hd; [|discriminate].
      destruct (py_setitem a1 1 (127 - value)) as [a2|] eqn:H2;
        cbn [bind] in Hd; [|discriminate].
      injection Hd as <- <- <-. cbn in Cas.
      apply py_setitem_inv in H1 as [L1 ->]; [|lia].
      apply py_setitem_inv in H2 as [L2 ->]; [|lia].
      rewrite length_insert in L2.
      rewrite Cas.
      rewrite py_setitem_in_range by (rewrite !length_insert; lia). cbn [bind].
      rewrite py_setitem_in_range by (rewrite !length_insert; lia). cbn [bind].
      assert (Hl : <[Z.to_nat 1 := 127 - value]>
                     (<[Z.to_nat 0 := value]>
                        (<[Z.to_nat 1 := 127 - value]>
                           (<[Z.to_nat 0 := value]> (cross_fader_assign self))))
                   = cross_fader_assign self1).
      { rewrite Cas. destruct (cross_fader_assign self) as [|p [|q l]]; reflexivity. }
      rewrite Hl. f_equal. f_equal. f_equal. same_state self1.
    - destruct (py_setitem (cross_fader_assign self) _ value) as [a1|] eqn:H1;
        cbn [bind] in Hd; [|discriminate].
      injection Hd as <- <- <-. cbn in Cas.
      rewrite Cas, (py_setitem_again _ _ _ _ H1). cbn [bind].
      f_equal. f_equal. f_equal. same_state self1. }
  destruct (attr_eqb param (CH_FADER djm)) as [[|]|]; cbn [bind] in Hd |- *;
    [| |discriminate].
  - assert (Hth : fader_th self'
                  = if 64 <=? value then FADER_TRESHOLD else CH_FADER_LOW_SLOPE_THRESHOLD).
    { destruct (fader_th self =? _); cbn [bind] in Hd.
      - injection Hd as <- _ _. reflexivity.
      - destruct (__update_onair_fader _ _ _ _); cbn [bind] in Hd; [|discriminate].
        injection Hd as <- _ _. reflexivity. }
    assert (send = true) as ->.
    { destruct (fader_th self =? _); cbn [bind] in Hd; [congruence|].
      destruct (__update_onair_fader _ _ _ _); cbn [bind] in Hd; congruence. }
    rewrite Cth, Hth, Z.eqb_refl. cbn [bind].
    f_equal. f_equal. f_equal. rewrite <- Hth, <- Cth. same_state self1.
  - injection Hd as _ _ <-. reflexivity.
Qed.

(** C4, counterexample: on a DJM-250MK2 whose channel 1 fader stands at 5,
    the controller event "channel 1 fader = 1" delivered twice in a row
    emits an on-air packet both times.  The first delivery moves the fader
    down to the threshold, which the downward bias counts as off; the second
    finds the fader at rest on the threshold and counts it as on. *)
Lemma same_controller_twice_emits_twice :
  exists self self1 self2,
    run DJM250MK2 (MidiMain_init DJM250MK2 (Some "DJM-250MK2"%string))
      [Controller 17 5]
    = Ok (self, [onair_bytes [true; false]]) /\
    handle_event DJM250MK2 self (Controller 17 1)
    = Ok (self1, onair_bytes [false; false]) /\
    handle_event DJM250MK2 self1 (Controller 17 1)
    = Ok (self2, onair_bytes [true; false]) /\
    onair_bytes [true; false] <> [].
Proof.
  do 3 eexists.
  split; [vm_compute; reflexivity|].
  split; [vm_compute; reflexivity|].
  split; [vm_compute; reflexivity|].
  apply onair_bytes_not_nil.
Qed.

(** The cross-fader shows the same effect at 1 (reached from below) and,
    symmetrically, at 126: the second delivery of "cross-fader = 1" moves
    the region from the middle to the left bound. *)
Lemma cross_fader_twice_emits_twice :
  exists self self1 self2,
    run DJM250MK2 (MidiMain_init DJM250MK2 (Some "DJM-250MK2"%string))
      [Controller 17 5; Controller 18 5; Controller 0x60 0; Controller 11 0]
    = Ok (self, [onair_bytes [true; false]; onair_bytes [true; true]; [];
                 onair_bytes [true; false]]) /\
    handle_event DJM250MK2 self (Controller 11 1)
    = Ok (self1, onair_bytes [true; true]) /\
    handle_event DJM250MK2 self1 (Controller 11 1)
    = Ok (self2, onair_bytes [true; false]).
Proof.
  do 3 eexists.
  split; [vm_compute; reflexivity|].
  split; vm_compute; reflexivity.
Qed.

(** The branches never touch the stored on-air packet. *)
Lemma dispatch_last_onair_pkt djm self event self1 out_pkt send :
  dispatch djm self event = Ok (self1, out_pkt, send) ->
  last_onair_pkt self1 = last_onair_pkt self.
Proof.
  intros H. unfold dispatch in H.
  destruct event as [param value|note velocity| |].
  - destruct (param =? CROSS_FADER djm).
    { injection H as <- _ _. reflexivity. }
    destruct (in_range (CH1_FADER djm) _ param).
    { destruct (py_getitem _ _) as [old|]; cbn [bind] in H; [|discriminate].
      destruct (py_setitem _ _ _) as [fv|]; cbn [bind] in H; [|discriminate].
      destruct (__update_onair_fader _ _ _ _) as [s2|] eqn:Hu; cbn [bind] in H;
        [|discriminate].
      apply update_onair_fader_inv in Hu as [Hu _].
      injection H as <- _ _. rewrite Hu. reflexivity. }
    destruct (in_range (FIRST_CROSS_FADER_ASSIGN djm) _ param).
    { destruct (CH_MAX djm =? 2).
      - destruct (py_setitem _ 0 _) as [a1|]; cbn [bind] in H; [|discriminate].
        destruct (py_setitem a1 _ _) as [a2|]; cbn [bind] in H; [|discriminate].
        injection H as <- _ _. reflexivity.
      - destruct (py_setitem _ _ _) as [a1|]; cbn [bind] in H; [|discriminate].
        injection H as <- _ _. reflexivity. }
    destruct (attr_eqb param (CH_FADER djm)) as [[|]|]; cbn [bind] in H;
      [| |discriminate].
    + destruct (fader_th self =? _).
      * cbn [bind] in H. injection H as <- _ _. reflexivity.
      * destruct (__update_onair_fader _ _ _ _) as [s2|] eqn:Hu; cbn [bind] in H;
          [|discriminate].
        apply update_onair_fader_inv in Hu as [Hu _].
        injection H as <- _ _. rewrite Hu. reflexivity.
    + injection H as <- _ _. reflexivity.
  - destruct (attr_truthy (FADER_START1_NOTE djm)) as [[b|]|]; cbn [bind] in H;
      [| |discriminate].
    + destruct (in_range b _ note).
      * destruct (ProDjLink.fader_start_pkt _ _ _) as [pkt|]; cbn [bind] in H;
          [|discriminate].
        destruct (assign_from_prev_event _ _ _) as [s2|] eqn:Ha; cbn [bind] in H;
          [|discriminate].
        apply assign_from_prev_event_inv in Ha.
        injection H as <- _ _. rewrite Ha. reflexivity.
      * injection H as <- _ _. reflexivity.
    + injection H as <- _ _. reflexivity.
  - injection H as <- _ _. reflexivity.
  - injection H as <- _ _. reflexivity.
Qed.

(** C4, amended: a controller event delivered a second time right after
    the first emits nothing and leaves the engine unchanged, unless the
    direction bias of the first delivery was decisive, that is unless it is
    a cross-fader change to 1 from below or to 126 from above, or a
    channel-fader change that moves the fader down onto the threshold; and
    of two consecutive events that both compute an on-air vector, with the
    same result, the second does not emit the on-air packet: it returns
    nothing or the fader-start packet. *)
Theorem redelivery_emits_once (djm : djm_enum) :
  (forall self param value self1 out_pkt1,
      handle_event djm self (Controller param value) = Ok (self1, out_pkt1) ->
      (param = CROSS_FADER djm ->
       ~ (value = 1 /\ xfader_value self < 1) /\
       ~ (value = 126 /\ 126 < xfader_value self)) ->
      (param <> CROSS_FADER djm ->
       CH1_FADER djm <= param < CH1_FADER djm + CH_MAX djm ->
       forall old, fader_value self !! Z.to_nat (param - CH1_FADER djm) = Some old ->
                   ~ (value = fader_th self /\ value < old)) ->
      handle_event djm self1 (Controller param value) = Ok (self1, [])) /\
  (forall self event1 self1 out_pkt1 event2 self2 out_pkt2,
      handle_event djm self event1 = Ok (self1, out_pkt1) ->
      handle_event djm self1 event2 = Ok (self2, out_pkt2) ->
      computes_onair djm self event1 ->
      computes_onair djm self1 event2 ->
      onair_channels self2 = onair_channels self1 ->
      out_pkt2 <> onair_bytes (onair_channels self2) /\
      (out_pkt2 = [] \/ last_fader_start_pkt self2 = Some out_pkt2)).
Proof.
  split.
  - intros self param value self1 out_pkt1 H Hx Hf.
    apply handle_event_inv in H as (sd & od & send & Hd & E).
    destruct (first_prev_event_fields self (Controller param value))
      as (Exv & _ & _ & Efv & _ & Eth & _).
    assert (E1 : self1 = fst (finish (Controller param value) sd od send))
      by (rewrite <- E; reflexivity).
    rewrite E1. apply redeliver.
    apply (dispatch_controller_again djm _ param value sd od send Hd).
    + rewrite Exv. exact Hx.
    + rewrite Efv, Eth. exact Hf.
  - intros self event1 self1 out_pkt1 event2 self2 out_pkt2 H1 H2 C1 C2 Hsame.
    apply handle_event_inv in H1 as (sd1 & od1 & send1 & Hd1 & E1).
    destruct C1 as (x1 & y1 & C1). rewrite C1 in Hd1. injection Hd1 as <- <- <-.
    apply handle_event_inv in H2 as (sd2 & od2 & send2 & Hd2 & E2).
    destruct C2 as (x2 & y2 & C2). rewrite C2 in Hd2. injection Hd2 as <- <- <-.
    assert (Hlast : last_onair_pkt self1 = Some (onair_bytes (onair_channels self1))).
    { injection E1 as -> _. reflexivity. }
    assert (Hkeep : last_onair_pkt x2 = last_onair_pkt self1).
    { rewrite (dispatch_last_onair_pkt _ _ _ _ _ _ C2).
      apply (first_prev_event_fields self1 event2). }
    assert (Hch : onair_channels self2 = onair_channels x2).
    { injection E2 as -> _. reflexivity. }
    assert (Hdec : bool_decide (last_onair_pkt x2 = Some (onair_bytes (onair_channels x2)))
                   = true).
    { apply bool_decide_eq_true_2. rewrite Hkeep, Hlast, <- Hch, Hsame. reflexivity. }
    assert (Hout : out_pkt2 = y2 /\ last_fader_start_pkt self2 = last_fader_start_pkt x2).
    { unfold finish in E2. rewrite Hdec in E2. injection E2 as -> ->. split; reflexivity. }
    destruct Hout as [-> Hfs]. rewrite Hfs.
    apply dispatch_out in C2. destruct C2 as [->|[Hl (st & Hst)]].
    + split; [|left; reflexivity].
      intros H. symmetry in H. exact (onair_bytes_not_nil _ H).
    + split; [|right; exact Hl].
      rewrite Hst. apply fader_start_bytes_not_onair.
Qed.

Lemma redelivery_emits_once_witness :
  (exists self1 out_pkt1,
      handle_event DJM250MK2 (MidiMain_init DJM250MK2 None) (Controller 17 5)
      = Ok (self1, out_pkt1) /\
      handle_event DJM250MK2 self1 (Controller 17 5) = Ok (self1, [])) /\
  (exists self1 out_pkt1 self2 out_pkt2,
      handle_event DJM250MK2 (MidiMain_init DJM250MK2 None) (Controller 17 5)
      = Ok (self1, out_pkt1) /\
      handle_event DJM250MK2 self1 (Controller 18 0) = Ok (self2, out_pkt2) /\
      out_pkt2 <> onair_bytes (onair_channels self2) /\
      (out_pkt2 = [] \/ last_fader_start_pkt self2 = Some out_pkt2)).
Proof.
  split.
  - do 2 eexists. split; [vm_compute; reflexivity|].
    eapply (proj1 (redelivery_emits_once DJM250MK2) (MidiMain_init DJM250MK2 None) 17 5).
    + vm_compute. reflexivity.
    + intros H. discriminate H.
    + intros _ _ old Hold. cbn in Hold. injection Hold as <-.
      unfold MidiMain_init, FADER_TRESHOLD. cbn. lia.
  - do 4 eexists. split; [vm_compute; reflexivity|].
    split; [vm_compute; reflexivity|].
    eapply (proj2 (redelivery_emits_once DJM250MK2) (MidiMain_init DJM250MK2 None)
              (Controller 17 5) _ _ (Controller 18 0)).
    + vm_compute. reflexivity.
    + vm_compute. reflexivity.
    + do 2 eexists. vm_compute. reflexivity.
    + do 2 eexists. vm_compute. reflexivity.
    + vm_compute. reflexivity.
Defined.

(** ** The entry point *)

(** With a connected port and an event read, [wait_handle_input_event] is
    the handler; without a port, or when reading fails, it returns [None]
    and handles nothing. *)
Lemma wait_handle_input_event_received djm self port event :
  source_port self = Some port ->
  wait_handle_input_event djm self (Received event)
  = (r <- handle_event djm self event ;; Ok (fst r, Some (snd r))).
Proof. intros H. unfold wait_handle_input_event. rewrite H. reflexivity. Qed.

Lemma wait_handle_input_event_prev_event djm self i self' out_pkt :
  wait_handle_input_event djm self i = Ok (self', Some out_pkt) ->
  exists event, i = Received event /\ prev_event self' = Some event.
Proof.
  unfold wait_handle_input_event.
  destruct (source_port self); [|discriminate].
  destruct i as [event| | |]; try discriminate.
  destruct (handle_event djm self event) as [[s1 o1]|] eqn:H; cbn; [|discriminate].
  intros [= <- _]. exists event. split; [reflexivity|].
  eapply handle_event_prev_event; eauto.
Qed.

Lemma wait_handle_input_event_detached djm self i :
  source_port self = None -> wait_handle_input_event djm self i = Ok (self, None).
Proof. intros H. unfold wait_handle_input_event. rewrite H. reflexivity. Qed.

(** * Further properties of the code *)

(** ** The packet layout *)

Lemma bools_of_bytes_of_bools (l : list bool) :
  map (Z.eqb 1) (bytes_of_bools l) = l.
Proof.
  unfold bytes_of_bools.
  induction l as [|[|] l IH]; cbn; [reflexivity| |]; f_equal; exact IH.
Qed.

(** X1: the name field of a name of ASCII characters is the name cut to its
    first 20 characters and filled up with NUL bytes to exactly 20 bytes;
    the truncation warning is logged exactly for names longer than 20. *)
Theorem format_device_name_ascii_field (name : str) :
  Forall (fun c => c < 0x80) name ->
  ProDjLink._format_device_name name
  = Ok (take 20 name ++ replicate (20 - length name) 0) /\
  length (take 20 name ++ replicate (20 - length name) 0) = 20%nat /\
  ProDjLink.truncation_logged name = (20 <? length name)%nat.
Proof.
  intros H. unfold ProDjLink._format_device_name, ProDjLink.truncation_logged,
    ProDjLink._MAX_DEVICE_NAME_LEN, ljust.
  assert (Ht : take 20 (name ++ replicate (20 - length name) 0)
               = take 20 name ++ replicate (20 - length name) 0).
  { destruct (decide (length name <= 20)%nat) as [Hle|Hgt].
    - rewrite (take_ge name) by exact Hle.
      apply take_ge. rewrite length_app, length_replicate. lia.
    - replace (20 - length name)%nat with 0%nat by lia. cbn [replicate].
      rewrite !app_nil_r. reflexivity. }
  split; [|split].
  - rewrite Ht. apply encode_ascii.
    apply Forall_app. split; [apply Forall_take; exact H|].
    apply Forall_replicate. reflexivity.
  - rewrite length_app, length_take, length_replicate. lia.
  - rewrite length_app, length_replicate.
    destruct (Nat.ltb_spec 20 (length name)) as [H1|H1];
      [apply Nat.ltb_lt|apply Nat.ltb_ge]; lia.
Qed.

Lemma format_device_name_ascii_field_witness :
  ProDjLink._format_device_name DEVICE_NAME
  = Ok (take 20 DEVICE_NAME ++ replicate (20 - length DEVICE_NAME) 0) /\
  length (take 20 DEVICE_NAME ++ replicate (20 - length DEVICE_NAME) 0) = 20%nat /\
  ProDjLink.truncation_logged DEVICE_NAME = (20 <? length DEVICE_NAME)%nat.
Proof.
  apply (format_device_name_ascii_field DEVICE_NAME).
  unfold DEVICE_NAME. cbn. repeat constructor.
Defined.

(** X2: the on-air packet of an ASCII name has 41 bytes plus one per
    channel: the 10-byte header and the type byte 3, the 20-byte name, the
    tag, the channel bytes and 5 NUL bytes; the channel vector is read back
    from offset 36. *)
Theorem onair_pkt_layout (name : str) (onair_ch : list bool) :
  Forall (fun c => c < 0x80) name ->
  exists pkt,
    ProDjLink.onair_pkt name onair_ch = Ok pkt /\
    length pkt = (41 + length onair_ch)%nat /\
    take 11 pkt = ProDjLink._HEADER ++ [0x03] /\
    take 5 (drop 31 pkt) = [0x01; 0; 0; 0; 0x09] /\
    map (Z.eqb 1) (take (length onair_ch) (drop 36 pkt)) = onair_ch /\
    drop (36 + length onair_ch) pkt = [0; 0; 0; 0; 0].
Proof.
  intros H. destruct (format_device_name_ascii name H) as (b & Hb & Hlen).
  unfold ProDjLink.onair_pkt. rewrite Hb. cbn [bind].
  eexists. split; [reflexivity|].
  do 21 (destruct b as [|? b]; try discriminate Hlen). clear Hlen Hb.
  cbn [app ProDjLink._HEADER].
  split.
  { cbn [length]. rewrite length_app. unfold bytes_of_bools.
    rewrite length_map. cbn. lia. }
  split; [reflexivity|]. split; [reflexivity|].
  cbn [drop].
  split.
  - replace (length onair_ch) with (length (bytes_of_bools onair_ch))
      by apply length_map.
    change (drop 0 ?l) with l.
    rewrite take_app_length. apply bools_of_bytes_of_bools.
  - cbn [Nat.add drop].
    replace (length onair_ch) with (length (bytes_of_bools onair_ch))
      by apply length_map.
    apply drop_app_length.
Qed.

Lemma onair_pkt_layout_witness :
  exists pkt,
    ProDjLink.onair_pkt DEVICE_NAME [true; false; true; true] = Ok pkt /\
    length pkt = (41 + length [true; false; true; true])%nat /\
    take 11 pkt = ProDjLink._HEADER ++ [0x03] /\
    take 5 (drop 31 pkt) = [0x01; 0; 0; 0; 0x09] /\
    map (Z.eqb 1) (take (length [true; false; true; true]) (drop 36 pkt))
    = [true; false; true; true] /\
    drop (36 + length [true; false; true; true]) pkt = [0; 0; 0; 0; 0].
Proof.
  apply (onair_pkt_layout DEVICE_NAME [true; false; true; true]).
  unfold DEVICE_NAME. cbn. repeat constructor.
Defined.

(** X3: [fader_start_pkt] indexes a list of four entries the way Python
    does: a channel of 4 or more, or below -4, raises [IndexError], and a
    channel from -4 to -1 addresses the entry counted from the end. *)
Theorem fader_start_pkt_index (name : str) (channel : Z) (stop : bool) :
  encodable name ->
  (channel < -4 \/ 4 <= channel ->
   ProDjLink.fader_start_pkt name channel stop = Raise IndexError) /\
  (-4 <= channel < 0 ->
   ProDjLink.fader_start_pkt name channel stop
   = ProDjLink.fader_start_pkt name (channel + 4) stop).
Proof.
  intros Henc. destruct (format_device_name_encodable _ Henc) as (b & Hb).
  unfold ProDjLink.fader_start_pkt. rewrite Hb. cbn [bind].
  unfold py_setitem, py_index. cbn [length replicate].
  change (Z.of_nat 4) with 4. change (- (4)) with (-4).
  split.
  - intros Hc.
    replace ((0 <=? channel) && (channel <? 4)) with false
      by (symmetry; apply andb_false_iff;
          rewrite Z.leb_gt, Z.ltb_ge; lia).
    replace ((-4 <=? channel) && (channel <? 0)) with false
      by (symmetry; apply andb_false_iff;
          rewrite Z.leb_gt, Z.ltb_ge; lia).
    reflexivity.
  - intros Hc.
    replace ((0 <=? channel) && (channel <? 4)) with false
      by (symmetry; apply andb_false_iff;
          rewrite Z.leb_gt, Z.ltb_ge; lia).
    replace ((-4 <=? channel) && (channel <? 0)) with true
      by (symmetry; apply andb_true_iff;
          rewrite Z.leb_le, Z.ltb_lt; lia).
    replace ((0 <=? channel + 4) && (channel + 4 <? 4)) with true
      by (symmetry; apply andb_true_iff;
          rewrite Z.leb_le, Z.ltb_lt; lia).
    replace (4 + channel) with (channel + 4) by lia. reflexivity.
Qed.

Lemma fader_start_pkt_index_witness :
  (-1 < -4 \/ 4 <= -1 ->
   ProDjLink.fader_start_pkt DEVICE_NAME (-1) true = Raise IndexError) /\
  (-4 <= -1 < 0 ->
   ProDjLink.fader_start_pkt DEVICE_NAME (-1) true
   = ProDjLink.fader_start_pkt DEVICE_NAME (-1 + 4) true).
Proof.
  apply (fader_start_pkt_index DEVICE_NAME (-1) true).
  unfold encodable, DEVICE_NAME. cbn. repeat constructor.
Defined.

(** X4: whatever the names, an on-air packet and a fader-start packet are
    never the same bytes: they differ in the type byte after the header. *)
Theorem onair_pkt_not_fader_start_pkt (name1 name2 : str) (onair_ch : list bool)
    (channel : Z) (stop : bool) (p q : bytes) :
  ProDjLink.onair_pkt name1 onair_ch = Ok p ->
  ProDjLink.fader_start_pkt name2 channel stop = Ok q ->
  p <> q /\ p !! 10%nat = Some 3 /\ q !! 10%nat = Some 2.
Proof.
  unfold ProDjLink.onair_pkt, ProDjLink.fader_start_pkt.
  destruct (ProDjLink._format_device_name name1) as [b1|]; cbn [bind]; [|discriminate].
  destruct (ProDjLink._format_device_name name2) as [b2|]; cbn [bind]; [|discriminate].
  destruct (py_setitem _ _ _) as [st|]; cbn [bind]; [|discriminate].
  intros [= <-] [= <-]. cbn. split; [discriminate|]. split; reflexivity.
Qed.

Lemma onair_pkt_not_fader_start_pkt_witness :
  onair_bytes [true; false] <> fader_start_bytes [2; 1; 2; 2] /\
  onair_bytes [true; false] !! 10%nat = Some 3 /\
  fader_start_bytes [2; 1; 2; 2] !! 10%nat = Some 2.
Proof.
  apply (onair_pkt_not_fader_start_pkt DEVICE_NAME DEVICE_NAME [true; false] 1 true);
    reflexivity.
Defined.

(** ** What every handled event keeps *)

Lemma assign_from_prev_event_length djm self channel self' :
  assign_from_prev_event djm self channel = Ok self' ->
  length (cross_fader_assign self') = length (cross_fader_assign self).
Proof.
  unfold assign_from_prev_event.
  destruct (prev_event self) as [[pp pv| | |]|]; try discriminate;
    try (intros [= <-]; reflexivity).
  destruct (pp =? CROSS_FADER djm).
  - destruct (py_setitem _ _ _) eqn:E; cbn [bind]; [|discriminate].
    intros [= <-]. cbn. eapply py_setitem_length; eauto.
  - destruct (in_range _ _ pp).
    + destruct (py_setitem _ _ _) eqn:E; cbn [bind]; [|discriminate].
      intros [= <-]. cbn. eapply py_setitem_length; eauto.
    + intros [= <-]. reflexivity.
Qed.

(** What the branches keep: the sizes of the per-channel lists, a threshold
    of 1 or 2 once it is written, a region name among the three, the port
    and the previous event; and a branch that asks for no on-air packet has
    changed nothing and produced nothing. *)
Lemma dispatch_keeps djm self event self1 out_pkt send :
  dispatch djm self event = Ok (self1, out_pkt, send) ->
  length (cross_fader_assign self1) = length (cross_fader_assign self) /\
  length (fader_value self1) = length (fader_value self) /\
  length (onair_fader self1) = length (onair_fader self) /\
  (fader_th self1 = fader_th self \/ fader_th self1 = 1 \/ fader_th self1 = 2) /\
  (xfader_channel self1 = xfader_channel self \/
   xfader_channel self1 = "A"%string \/ xfader_channel self1 = "B"%string \/
   xfader_channel self1 = "AB"%string) /\
  source_port self1 = source_port self /\
  prev_event self1 = prev_event self /\
  (send = false -> self1 = self /\ out_pkt = []).
Proof.
  intros H. unfold dispatch in H.
  destruct event as [param value|note velocity| |].
  - destruct (param =? CROSS_FADER djm).
    { injection H as <- <- <-. cbn.
      repeat split; try reflexivity; try discriminate; auto.
      right. destruct (_ <=? _); [auto|]. destruct (_ <=? _); auto. }
    destruct (in_range (CH1_FADER djm) _ param).
    { destruct (py_getitem _ _) as [old|]; cbn [bind] in H; [|discriminate].
      destruct (py_setitem _ _ _) as [fv|] eqn:Hs; cbn [bind] in H; [|discriminate].
      destruct (__update_onair_fader _ _ _ _) as [s2|] eqn:Hu; cbn [bind] in H;
        [|discriminate].
      apply update_onair_fader_inv in Hu as [Hu Hl].
      apply py_setitem_length in Hs.
      injection H as <- <- <-. rewrite Hu. cbn in Hl |- *.
      repeat split; try reflexivity; try discriminate; auto. }
    destruct (in_range (FIRST_CROSS_FADER_ASSIGN djm) _ param).
    { destruct (CH_MAX djm =? 2).
      - destruct (py_setitem _ 0 _) as [a1|] eqn:H1; cbn [bind] in H; [|discriminate].
        destruct (py_setitem a1 _ _) as [a2|] eqn:H2; cbn [bind] in H; [|discriminate].
        apply py_setitem_length in H1, H2.
        injection H as <- <- <-. cbn.
        repeat split; try reflexivity; try discriminate; auto; congruence.
      - destruct (py_setitem _ _ _) as [a1|] eqn:H1; cbn [bind] in H; [|discriminate].
        apply py_setitem_length in H1.
        injection H as <- <- <-. cbn.
        repeat split; try reflexivity; try discriminate; auto. }
    destruct (attr_eqb param (CH_FADER djm)) as [[|]|]; cbn [bind] in H;
      [| |discriminate].
    + assert (Hth : forall b : bool, (if b then FADER_TRESHOLD
                                      else CH_FADER_LOW_SLOPE_THRESHOLD) = 1 \/
                                     (if b then FADER_TRESHOLD
                                      else CH_FADER_LOW_SLOPE_THRESHOLD) = 2).
      { intros [|]; [left|right]; reflexivity. }
      destruct (fader_th self =? _).
      * cbn [bind] in H. injection H as <- <- <-. cbn.
        repeat split; try reflexivity; try discriminate; auto.
      * destruct (__update_onair_fader _ _ _ _) as [s2|] eqn:Hu; cbn [bind] in H;
          [|discriminate].
        apply update_onair_fader_inv in Hu as [Hu Hl].
        injection H as <- <- <-. rewrite Hu. cbn.
        repeat split; try reflexivity; try discriminate; auto.
    + injection H as <- <- <-.
      repeat split; try reflexivity; auto.
  - destruct (attr_truthy (FADER_START1_NOTE djm)) as [[b|]|]; cbn [bind] in H;
      [| |discriminate].
    + destruct (in_range b _ note).
      * destruct (ProDjLink.fader_start_pkt _ _ _) as [pkt|]; cbn [bind] in H;
          [|discriminate].
        destruct (assign_from_prev_event _ _ _) as [s2|] eqn:Ha; cbn [bind] in H;
          [|discriminate].
        pose proof (assign_from_prev_event_length _ _ _ _ Ha) as Hl.
        apply assign_from_prev_event_inv in Ha.
        injection H as <- <- <-. rewrite Ha. cbn in Hl |- *.
        repeat split; try reflexivity; try discriminate; auto.
      * injection H as <- <- <-. repeat split; try reflexivity; auto.
    + injection H as <- <- <-. repeat split; try reflexivity; auto.
  - injection H as <- <- <-. repeat split; try reflexivity; auto.
  - injection H as <- <- <-. repeat split; try reflexivity; auto.
Qed.

Lemma finish_fields event self1 out_pkt send self' out :
  (self', out) = finish event self1 out_pkt send ->
  same_core self' self1 /\
  source_port self' = source_port self1 /\
  last_fader_start_pkt self' = last_fader_start_pkt self1.
Proof. unfold finish. destruct send; intros [= -> _]; repeat split. Qed.

(** X5: handling an event never changes the number of entries of the
    per-channel lists, so every engine reached from a fresh one has exactly
    [CH_MAX] assignments, levels and on-air flags; its threshold is 1 or 2
    and its cross-fader region is one of A, B and AB. *)
Theorem reachable_sized (djm : djm_enum) (self : MidiMain) :
  reachable djm self ->
  sized djm self /\
  (fader_th self = 1 \/ fader_th self = 2) /\
  (xfader_channel self = "A"%string \/ xfader_channel self = "B"%string \/
   xfader_channel self = "AB"%string).
Proof.
  induction 1 as [port|self event self' out_pkt _ IH H].
  - split; [|split].
    + unfold sized. cbn. rewrite !length_replicate. repeat split.
    + left. reflexivity.
    + right. right. reflexivity.
  - destruct IH as ((L1 & L2 & L3) & Hth & Hx).
    apply handle_event_inv in H as (s1 & o1 & send & Hd & E).
    apply finish_fields in E as ((Exv & Exc & Eas & Efv & Eon & Eth) & _).
    destruct (first_prev_event_fields self event)
      as (_ & Fxc & Fas & Ffv & Fon & Fth & _).
    apply dispatch_keeps in Hd as (K1 & K2 & K3 & K4 & K5 & _).
    rewrite Fas in K1. rewrite Ffv in K2. rewrite Fon in K3.
    rewrite Fth in K4. rewrite Fxc in K5.
    split; [|split].
    + unfold sized. rewrite Eas, Efv, Eon. repeat split; congruence.
    + rewrite Eth. destruct K4 as [->|K4]; [exact Hth|exact K4].
    + rewrite Exc. destruct K5 as [->|K5]; [exact Hx|exact K5].
Qed.

Lemma reachable_run djm self events self' outs :
  reachable djm self ->
  run djm self events = Ok (self', outs) ->
  reachable djm self'.
Proof.
  revert self outs. induction events as [|e events IH]; intros self outs Hr; cbn [run].
  - intros [= <- _]. exact Hr.
  - destruct (handle_event djm self e) as [[s1 o1]|] eqn:H1; cbn [bind fst snd];
      [|discriminate].
    destruct (run djm s1 events) as [[s2 o2]|] eqn:H2; cbn [bind fst snd];
      [|discriminate].
    intros [= <- _]. eapply IH; [|exact H2].
    eapply reachable_step; eauto.
Qed.

Lemma reachable_sized_witness :
  exists self outs,
    run DJM850 (MidiMain_init DJM850 (Some "DJM-850"%string))
      [Controller 17 100; Controller 11 0; NoteOn 102 100; Controller 94 0;
       Controller 66 127]
    = Ok (self, outs) /\
    cross_fader_assign self = [127; 127; 64; 64] /\
    fader_value self = [100; 0; 0; 0] /\
    onair_fader self = [true; false; false; false] /\
    sized DJM850 self /\
    (fader_th self = 1 \/ fader_th self = 2) /\
    (xfader_channel self = "A"%string \/ xfader_channel self = "B"%string \/
     xfader_channel self = "AB"%string).
Proof.
  do 2 eexists. split; [vm_compute; reflexivity|].
  split; [reflexivity|]. split; [reflexivity|]. split; [reflexivity|].
  apply reachable_sized.
  eapply (reachable_run DJM850 (MidiMain_init DJM850 (Some "DJM-850"%string))
            [Controller 17 100; Controller 11 0; NoteOn 102 100; Controller 94 0;
             Controller 66 127]).
  - constructor.
  - vm_compute. reflexivity.
Defined.

Lemma onair_channels_same_core self1 self2 :
  same_core self1 self2 -> onair_channels self1 = onair_channels self2.
Proof.
  intros (_ & Exc & Eas & _ & Eon & _).
  unfold onair_channels, _get_onair_xfader. rewrite Exc, Eas, Eon. reflexivity.
Qed.

Lemma same_core_trans s1 s2 s3 : same_core s1 s2 -> same_core s2 s3 -> same_core s1 s3.
Proof. unfold same_core. intuition congruence. Qed.

Lemma same_core_first_prev_event self event : same_core (first_prev_event self event) self.
Proof. unfold first_prev_event. destruct (prev_event self); repeat split. Qed.

(** X6: the stored on-air packet always describes the engine.  In every
    engine reached from a fresh one, either no on-air packet has been
    computed yet and the mixer state is still the initial one, or the last
    on-air packet computed is the packet of the current on-air vector. *)
Theorem onair_cache_coherent (djm : djm_enum) (self : MidiMain) :
  reachable djm self ->
  (last_onair_pkt self = None /\ same_core self (MidiMain_init djm None)) \/
  last_onair_pkt self = Some (onair_bytes (onair_channels self)).
Proof.
  induction 1 as [port|self event self' out_pkt _ IH H].
  - left. split; [reflexivity|repeat split].
  - apply handle_event_inv in H as (s1 & o1 & send & Hd & E).
    pose proof (dispatch_last_onair_pkt _ _ _ _ _ _ Hd) as Hl.
    apply dispatch_keeps in Hd as (_ & _ & _ & _ & _ & _ & _ & Hns).
    destruct (first_prev_event_fields self event)
      as (_ & _ & _ & _ & _ & _ & _ & Fl & _).
    rewrite Fl in Hl.
    pose proof (same_core_first_prev_event self event) as Hc0.
    destruct send.
    + right. injection E as -> _. reflexivity.
    + destruct (Hns eq_refl) as [-> _].
      assert (Hc : same_core self' self).
      { injection E as -> _. exact Hc0. }
      assert (Hl' : last_onair_pkt self' = last_onair_pkt self).
      { injection E as -> _. exact Fl. }
      rewrite Hl', (onair_channels_same_core _ _ Hc).
      destruct IH as [[IH1 IH2]|IH]; [left|right; exact IH].
      split; [exact IH1|]. eapply same_core_trans; eauto.
Qed.

Lemma onair_cache_coherent_witness :
  exists self outs,
    run DJM250MK2 (MidiMain_init DJM250MK2 (Some "DJM-250MK2"%string))
      [Controller 17 5; Controller 18 7; Controller 0x60 0; Controller 11 0;
       Controller 7 1; NoteOff 60 0]
    = Ok (self, outs) /\
    onair_channels self = [true; false] /\
    last_onair_pkt self = Some (onair_bytes [true; false]) /\
    ((last_onair_pkt self = None /\
      same_core self (MidiMain_init DJM250MK2 None)) \/
     last_onair_pkt self = Some (onair_bytes (onair_channels self))).
Proof.
  do 2 eexists. split; [vm_compute; reflexivity|].
  split; [reflexivity|]. split; [reflexivity|].
  apply onair_cache_coherent.
  eapply (reachable_run DJM250MK2 (MidiMain_init DJM250MK2 (Some "DJM-250MK2"%string))
            [Controller 17 5; Controller 18 7; Controller 0x60 0; Controller 11 0;
             Controller 7 1; NoteOff 60 0]).
  - constructor.
  - vm_compute. reflexivity.
Defined.

Lemma dispatch_out_fader_start djm self event self1 out_pkt send :
  dispatch djm self event = Ok (self1, out_pkt, send) ->
  out_pkt <> [] ->
  last_fader_start_pkt self1 = Some out_pkt /\
  exists (k : nat) (stop : bool),
    out_pkt = fader_start_bytes (<[k := Z.b2z stop]> (replicate 4 2)).
Proof.
  intros H Hne.
  destruct (dispatch_out _ _ _ _ _ _ H) as [->|[Hl _]]; [contradiction|].
  split; [exact Hl|].
  unfold dispatch in H.
  destruct event as [param value|note velocity| |];
    try (injection H as _ <- _; contradiction).
  - exfalso.
    destruct (param =? CROSS_FADER djm); [injection H as _ <- _; contradiction|].
    destruct (in_range (CH1_FADER djm) _ param).
    { destruct (py_getitem _ _); cbn [bind] in H; [|discriminate].
      destruct (py_setitem _ _ _); cbn [bind] in H; [|discriminate].
      destruct (__update_onair_fader _ _ _ _); cbn [bind] in H; [|discriminate].
      injection H as _ <- _; contradiction. }
    destruct (in_range (FIRST_CROSS_FADER_ASSIGN djm) _ param).
    { destruct (CH_MAX djm =? 2).
      - destruct (py_setitem _ 0 _) as [a1|]; cbn [bind] in H; [|discriminate].
        destruct (py_setitem a1 _ _); cbn [bind] in H; [|discriminate].
        injection H as _ <- _; contradiction.
      - destruct (py_setitem _ _ _); cbn [bind] in H; [|discriminate].
        injection H as _ <- _; contradiction. }
    destruct (attr_eqb param (CH_FADER djm)) as [[|]|]; cbn [bind] in H;
      [| |discriminate].
    + destruct (fader_th self =? _); cbn [bind] in H.
      * injection H as _ <- _; contradiction.
      * destruct (__update_onair_fader _ _ _ _); cbn [bind] in H; [|discriminate].
        injection H as _ <- _; contradiction.
    + injection H as _ <- _; contradiction.
  - destruct (attr_truthy (FADER_START1_NOTE djm)) as [[b|]|]; cbn [bind] in H;
      [| |discriminate]; try (injection H as _ <- _; contradiction).
    destruct (in_range b _ note); [|injection H as _ <- _; contradiction].
    unfold ProDjLink.fader_start_pkt in H. rewrite format_DEVICE_NAME in H.
    cbn [bind] in H. unfold py_setitem in H.
    destruct (py_index _ _) as [k|]; cbn [bind] in H; [|discriminate].
    destruct (assign_from_prev_event _ _ _); cbn [bind] in H; [|discriminate].
    injection H as _ <- _.
    destruct (bool_decide _); [contradiction|].
    exists k, (velocity =? 0). reflexivity.
Qed.

Lemma octets_fader_start_bytes (k : nat) (stop : bool) :
  Forall (fun b => 0 <= b < 256)
    (fader_start_bytes (<[k := Z.b2z stop]> (replicate 4 2))) /\
  length (fader_start_bytes (<[k := Z.b2z stop]> (replicate 4 2))) = 40%nat.
Proof.
  unfold fader_start_bytes. split.
  - apply Forall_app. split; [unfold ProDjLink._HEADER; repeat constructor; lia|].
    apply Forall_app. split; [repeat constructor; lia|].
    apply Forall_app. split; [unfold DEVICE_NAME_field; repeat constructor; lia|].
    apply Forall_app. split; [repeat constructor; lia|].
    apply Forall_insert; [repeat constructor; lia|].
    destruct stop; cbn; lia.
  - rewrite !length_app, length_insert. reflexivity.
Qed.

Lemma octets_onair_bytes (onair_ch : list bool) :
  Forall (fun b => 0 <= b < 256) (onair_bytes onair_ch) /\
  length (onair_bytes onair_ch) = (41 + length onair_ch)%nat.
Proof.
  unfold onair_bytes. split.
  - apply Forall_app. split; [unfold ProDjLink._HEADER; repeat constructor; lia|].
    apply Forall_app. split; [repeat constructor; lia|].
    apply Forall_app. split; [unfold DEVICE_NAME_field; repeat constructor; lia|].
    apply Forall_app. split; [repeat constructor; lia|].
    apply Forall_app. split; [|repeat constructor; lia].
    unfold bytes_of_bools. apply Forall_map, Forall_forall.
    intros [|] _; cbn; lia.
  - rewrite !length_app. unfold bytes_of_bools. rewrite length_map. cbn. lia.
Qed.

(** X7: a packet returned by the handler is a well-formed byte string
    (octets 0..255, so [bytes(..)] cannot raise) and is one of two: the
    40-byte fader-start packet just stored in [last_fader_start_pkt], or
    the on-air packet of the engine's new on-air vector, stored in
    [last_onair_pkt]. *)
Theorem handle_event_packet (djm : djm_enum) (self : MidiMain) (event : event)
    (self' : MidiMain) (out_pkt : bytes) :
  handle_event djm self event = Ok (self', out_pkt) ->
  out_pkt <> [] ->
  Forall (fun b => 0 <= b < 256) out_pkt /\
  ((last_fader_start_pkt self' = Some out_pkt /\
    length out_pkt = 40%nat /\ out_pkt !! 10%nat = Some 2) \/
   (last_onair_pkt self' = Some out_pkt /\
    out_pkt = onair_bytes (onair_channels self') /\
    length out_pkt = (41 + length (onair_channels self'))%nat /\
    out_pkt !! 10%nat = Some 3)).
Proof.
  intros H Hne. apply handle_event_inv in H as (s1 & o1 & send & Hd & E).
  assert (Hfs : o1 <> [] ->
                Forall (fun b => 0 <= b < 256) o1 /\
                last_fader_start_pkt s1 = Some o1 /\
                length o1 = 40%nat /\ o1 !! 10%nat = Some 2).
  { intros Hn. destruct (dispatch_out_fader_start _ _ _ _ _ _ Hd Hn)
      as (Hl & k & stop & ->).
    destruct (octets_fader_start_bytes k stop) as [Ho Hlen].
    repeat split; assumption || reflexivity. }
  unfold finish in E. destruct send.
  - destruct (bool_decide _) eqn:Hb.
    + injection E as -> ->. destruct (Hfs Hne) as (Ho & Hl & Hlen & H10).
      split; [exact Ho|]. left. repeat split; assumption.
    + injection E as -> ->.
      destruct (octets_onair_bytes (onair_channels s1)) as [Ho Hlen].
      split; [exact Ho|]. right. repeat split; assumption || reflexivity.
  - injection E as -> ->. destruct (Hfs Hne) as (Ho & Hl & Hlen & H10).
    split; [exact Ho|]. left. repeat split; assumption.
Qed.

Lemma handle_event_packet_witness :
  exists self',
    handle_event DJM250MK2 (MidiMain_init DJM250MK2 None) (Controller 17 5)
    = Ok (self', onair_bytes [true; false]) /\
    Forall (fun b => 0 <= b < 256) (onair_bytes [true; false]) /\
    ((last_fader_start_pkt self' = Some (onair_bytes [true; false]) /\
      length (onair_bytes [true; false]) = 40%nat /\
      onair_bytes [true; false] !! 10%nat = Some 2) \/
     (last_onair_pkt self' = Some (onair_bytes [true; false]) /\
      onair_bytes [true; false] = onair_bytes (onair_channels self') /\
      length (onair_bytes [true; false]) = (41 + length (onair_channels self'))%nat /\
      onair_bytes [true; false] !! 10%nat = Some 3)).
Proof.
  eexists. split; [vm_compute; reflexivity|].
  eapply (handle_event_packet DJM250MK2 (MidiMain_init DJM250MK2 None) (Controller 17 5)).
  - vm_compute. reflexivity.
  - apply onair_bytes_not_nil.
Defined.

(** ** Events that cannot raise *)

Lemma update_onair_fader_range4 self direction_down th a b c d p q r t :
  fader_value self = [a; b; c; d] ->
  onair_fader self = [p; q; r; t] ->
  __update_onair_fader self direction_down th [0; 1; 2; 3]
  = Ok (set_onair_fader
          (map (fun v => th + Z.b2z direction_down <=? v) (fader_value self)) self).
Proof.
  intros Hf Ho. destruct self; cbn in Hf, Ho; subst. reflexivity.
Qed.

Lemma prev_event_first_prev_event self event :
  exists pe, prev_event (first_prev_event self event) = Some pe.
Proof.
  unfold first_prev_event. destruct (prev_event self) as [pe|] eqn:E.
  - exists pe. exact E.
  - exists event. reflexivity.
Qed.

Lemma dispatch_controller_total djm self param value :
  controller_safe djm ->
  sized djm self ->
  exists r, dispatch djm self (Controller param value) = Ok r.
Proof.
  intros (Hmax & Hcf & Hfour) (L1 & L2 & L3). unfold dispatch.
  destruct (param =? CROSS_FADER djm); [eauto|].
  destruct (in_range (CH1_FADER djm) _ param) eqn:E2.
  { apply in_range_spec in E2.
    assert (Hi : (Z.to_nat (param - CH1_FADER djm) < length (fader_value self))%nat)
      by lia.
    destruct (lookup_lt_is_Some_2 _ _ Hi) as [old Hold].
    rewrite (py_getitem_in_range _ _ old); [|lia|exact Hold]. cbn [bind].
    rewrite py_setitem_in_range by lia. cbn [bind __update_onair_fader].
    cbn [fader_value set_fader_value onair_fader].
    rewrite (py_getitem_in_range _ _ value);
      [|lia|apply list_lookup_insert_eq; lia].
    cbn [bind]. rewrite py_setitem_in_range by lia. cbn [bind]. eauto. }
  destruct (in_range (FIRST_CROSS_FADER_ASSIGN djm) _ param) eqn:E3.
  { apply in_range_spec in E3.
    destruct (CH_MAX djm =? 2) eqn:E.
    - apply Z.eqb_eq in E. rewrite E in L1.
      destruct (cross_fader_assign self) as [|x [|y [|]]]; try discriminate L1.
      cbn. eauto.
    - rewrite py_setitem_in_range by lia. cbn [bind]. eauto. }
  destruct (CH_FADER djm) as [c| |] eqn:Ec; [| |contradiction]; cbn [attr_eqb bind];
    [|eauto].
  destruct (param =? c); [|eauto].
  destruct (fader_th self =? _); cbn [bind]; [eauto|].
  rewrite (Hfour c eq_refl) in L2, L3.
  destruct (fader_value self) as [|a [|b [|c' [|d [|]]]]] eqn:Ef; try discriminate L2.
  destruct (onair_fader self) as [|p [|q [|r [|t [|]]]]] eqn:Eo; try discriminate L3.
  rewrite (update_onair_fader_range4 _ _ _ _ _ _ _ _ _ _ _ Ef Eo). cbn [bind]. eauto.
Qed.

(** One event: on a profile whose slope control, if any, comes with four
    channels and which has at most four channels, an engine with [CH_MAX]
    entries per list handles the event without raising and has [CH_MAX]
    entries per list afterwards. *)
Lemma handle_event_step_total (djm : djm_enum) (self : MidiMain) (event : event) :
  controller_safe djm ->
  sized djm self ->
  (forall note velocity,
      event = NoteOn note velocity -> FADER_START1_NOTE djm <> AttrMissing) ->
  exists self' out_pkt,
    handle_event djm self event = Ok (self', out_pkt) /\ sized djm self'.
Proof.
  intros Hsafe Hsized Hnote.
  assert (Hok : exists self' out_pkt, handle_event djm self event = Ok (self', out_pkt)).
  { assert (Hs0 : sized djm (first_prev_event self event)).
    { destruct (first_prev_event_fields self event) as (_ & _ & E1 & E2 & E3 & _).
      unfold sized. rewrite E1, E2, E3. exact Hsized. }
    destruct event as [param value|note velocity|note velocity|].
    - destruct (dispatch_controller_total djm _ param value Hsafe Hs0)
        as [[[s1 o1] b1] Hd].
      rewrite (handle_event_dispatch _ _ _ _ _ _ Hd). destruct (finish _ _ _ _); eauto.
    - specialize (Hnote note velocity eq_refl).
      destruct (FADER_START1_NOTE djm) as [b| |] eqn:Eb; [| |contradiction].
      + destruct (Z.eq_dec b 0) as [->|Hnz].
        { rewrite unrecognized_event_inert; [eauto|]. cbn. right. left. eauto. }
        destruct (in_range b (b + CH_MAX djm) note) eqn:Er.
        * apply in_range_spec in Er.
          destruct Hsafe as (Hmax & _). destruct Hsized as (L1 & _).
          destruct (handle_event_fader_start djm self note velocity b Eb Hnz Er
                      ltac:(lia) L1) as (s' & o' & H & _).
          eauto.
        * rewrite unrecognized_event_inert; [eauto|]. cbn. right. right.
          exists b. split; [exact Eb|]. intros Hin.
          apply in_range_spec in Hin. congruence.
      + rewrite unrecognized_event_inert; [eauto|]. cbn. left. exact Eb.
    - rewrite unrecognized_event_inert; [eauto|exact I].
    - rewrite unrecognized_event_inert; [eauto|exact I]. }
  destruct Hok as (self' & out_pkt & H). exists self', out_pkt. split; [exact H|].
  apply handle_event_inv in H as (s1 & o1 & send & Hd & E).
  apply finish_fields in E as ((_ & _ & Eas & Efv & Eon & _) & _).
  apply dispatch_keeps in Hd as (K1 & K2 & K3 & _).
  destruct (first_prev_event_fields self event) as (_ & _ & F1 & F2 & F3 & _).
  destruct Hsized as (L1 & L2 & L3).
  unfold sized. rewrite Eas, Efv, Eon, K1, K2, K3, F1, F2, F3. repeat split; assumption.
Qed.

(** X8: a session never raises on the mixers whose profile answers every
    lookup.  On a profile whose slope control, if any, comes with four
    channels and which has at most four channels, an engine with [CH_MAX]
    entries per list (a fresh engine is one) handles every sequence of
    events, one result per event, and ends with [CH_MAX] entries per list;
    on the profiles that lack [FADER_START1_NOTE] this holds for the
    sequences without note-on events. *)
Theorem run_total (djm : djm_enum) (self : MidiMain) (events : list event) :
  controller_safe djm ->
  sized djm self ->
  (FADER_START1_NOTE djm = AttrMissing ->
   Forall (fun e => forall note velocity, e <> NoteOn note velocity) events) ->
  (forall port, sized djm (MidiMain_init djm port)) /\
  exists self' outs,
    run djm self events = Ok (self', outs) /\
    length outs = length events /\
    sized djm self'.
Proof.
  intros Hsafe Hsized Hnotes.
  split.
  { intros port. unfold sized. cbn. rewrite !length_replicate. repeat split. }
  revert self Hsized Hnotes.
  induction events as [|e events IH]; intros self Hsized Hnotes.
  - exists self, []. split; [reflexivity|]. split; [reflexivity|exact Hsized].
  - destruct (handle_event_step_total djm self e Hsafe Hsized) as (s1 & o1 & H1 & Hs1).
    { intros note velocity -> Hm. specialize (Hnotes Hm).
      apply Forall_cons in Hnotes as [Hn _]. exact (Hn note velocity eq_refl). }
    destruct (IH s1 Hs1) as (s2 & outs & H2 & Hlen & Hs2).
    { intros Hm. specialize (Hnotes Hm). apply Forall_cons in Hnotes as [_ Hn].
      exact Hn. }
    exists s2, (o1 :: outs). cbn [run]. rewrite H1. cbn [bind fst snd].
    rewrite H2. cbn [bind fst snd length].
    split; [reflexivity|]. split; [congruence|exact Hs2].
Qed.

Lemma run_total_witness :
  (forall port, sized DJM850 (MidiMain_init DJM850 port)) /\
  exists self' outs,
    run DJM850 (MidiMain_init DJM850 None)
      [Controller 17 100; NoteOn 102 0; Controller 94 0; NoteOff 1 1]
    = Ok (self', outs) /\
    length outs = length [Controller 17 100; NoteOn 102 0; Controller 94 0; NoteOff 1 1] /\
    sized DJM850 self'.
Proof.
  apply (run_total DJM850 (MidiMain_init DJM850 None)
           [Controller 17 100; NoteOn 102 0; Controller 94 0; NoteOff 1 1]).
  - split; [cbn; lia|]. split; [discriminate|]. intros c _. reflexivity.
  - repeat split.
  - intros H. discriminate H.
Defined.

(** ** The slope control *)

(** X9: on a four-channel profile, a change of the slope control selects
    the threshold 1 for values of 64 and more and the threshold 2 below.
    When the threshold changes, the on-air flag of every channel becomes
    [level >= new threshold + (1 if the threshold went up else 0)]: raising
    it from 1 to 2 keeps on only the faders at 3 or more, lowering it from 2
    to 1 turns on every fader at 1 or more.  When it does not change, the
    flags stay; levels and assignments are never touched. *)
Theorem slope_control (djm : djm_enum) (self : MidiMain) (param value : Z) :
  CH_FADER djm = Member param ->
  CH_MAX djm = 4 ->
  param <> CROSS_FADER djm ->
  ~ CH1_FADER djm <= param < CH1_FADER djm + CH_MAX djm ->
  ~ FIRST_CROSS_FADER_ASSIGN djm <= param < FIRST_CROSS_FADER_ASSIGN djm + CH_MAX djm ->
  sized djm self ->
  exists self' out_pkt,
    handle_event djm self (Controller param value) = Ok (self', out_pkt) /\
    fader_th self' = (if 64 <=? value then 1 else 2) /\
    fader_value self' = fader_value self /\
    cross_fader_assign self' = cross_fader_assign self /\
    onair_fader self'
    = if fader_th self =? (if 64 <=? value then 1 else 2) then onair_fader self
      else map (fun level =>
                  (if 64 <=? value then 1 else 2)
                  + Z.b2z (fader_th self <? (if 64 <=? value then 1 else 2)) <=? level)
             (fader_value self).
Proof.
  intros Hcf Hmax Hne Hch Has (L1 & L2 & L3).
  destruct (first_prev_event_fields self (Controller param value)) as (_ & _ & Fas & Ffv & Fon & Fth & _).
  rewrite Hmax in L2, L3.
  destruct (fader_value self) as [|a [|b [|c [|d [|]]]]] eqn:Ef; try discriminate L2.
  destruct (onair_fader self) as [|p [|q [|r [|t [|]]]]] eqn:Eo; try discriminate L3.
  assert (Hd : exists s1,
             dispatch djm (first_prev_event self (Controller param value))
               (Controller param value) = Ok (s1, [], true) /\
             fader_th s1 = (if 64 <=? value then 1 else 2) /\
             fader_value s1 = [a; b; c; d] /\
             cross_fader_assign s1 = cross_fader_assign self /\
             onair_fader s1
             = if fader_th self =? (if 64 <=? value then 1 else 2) then [p; q; r; t]
               else map (fun level =>
                           (if 64 <=? value then 1 else 2)
                           + Z.b2z (fader_th self <? (if 64 <=? value then 1 else 2))
                             <=? level) [a; b; c; d]).
  { unfold dispatch.
    apply Z.eqb_neq in Hne. rewrite Hne.
    destruct (in_range (CH1_FADER djm) _ param) eqn:E2;
      [apply in_range_spec in E2; contradiction|].
    destruct (in_range (FIRST_CROSS_FADER_ASSIGN djm) _ param) eqn:E3;
      [apply in_range_spec in E3; contradiction|].
    rewrite Hcf. cbn [attr_eqb bind]. rewrite Z.eqb_refl.
    unfold FADER_TRESHOLD, CH_FADER_LOW_SLOPE_THRESHOLD. rewrite Fth.
    destruct (fader_th self =? _) eqn:Eth; cbn [bind].
    - eexists. split; [reflexivity|]. cbn. repeat split; assumption.
    - rewrite (update_onair_fader_range4 _ _ _ a b c d p q r t) by congruence.
      cbn [bind]. eexists. split; [reflexivity|]. cbn.
      rewrite Ffv. repeat split; assumption. }
  destruct Hd as (s1 & Hd & H1 & H2 & H3 & H4).
  rewrite (handle_event_dispatch _ _ _ _ _ _ Hd).
  do 2 eexists. split; [reflexivity|]. cbn [finish fst].
  repeat split; assumption.
Qed.

Lemma slope_control_witness :
  exists self' out_pkt,
    handle_event DJM850 (MidiMain_init DJM850 None) (Controller 94 0)
    = Ok (self', out_pkt) /\
    fader_th self' = (if 64 <=? 0 then 1 else 2) /\
    fader_value self' = fader_value (MidiMain_init DJM850 None) /\
    cross_fader_assign self' = cross_fader_assign (MidiMain_init DJM850 None) /\
    onair_fader self'
    = if fader_th (MidiMain_init DJM850 None) =? (if 64 <=? 0 then 1 else 2)
      then onair_fader (MidiMain_init DJM850 None)
      else map (fun level =>
                  (if 64 <=? 0 then 1 else 2)
                  + Z.b2z (fader_th (MidiMain_init DJM850 None)
                           <? (if 64 <=? 0 then 1 else 2)) <=? level)
             (fader_value (MidiMain_init DJM850 None)).
Proof.
  apply (slope_control DJM850 (MidiMain_init DJM850 None) 94 0).
  - reflexivity.
  - reflexivity.
  - discriminate.
  - cbn. lia.
  - cbn. lia.
  - repeat split.
Defined.

(** ** Notes delivered again, inert events, the on-air gate *)

Lemma set_last_fader_start_pkt_same self pkt :
  last_fader_start_pkt self = Some pkt ->
  set_last_fader_start_pkt (Some pkt) self = self.
Proof. intros H. destruct self; cbn in *; subst; reflexivity. Qed.

Lemma dispatch_note_not_sent djm self note velocity self1 out_pkt :
  dispatch djm self (NoteOn note velocity) = Ok (self1, out_pkt, false) ->
  forall self2, dispatch djm self2 (NoteOn note velocity) = Ok (self2, [], false).
Proof.
  unfold dispatch. intros H self2.
  destruct (attr_truthy (FADER_START1_NOTE djm)) as [[b|]|]; cbn [bind] in *;
    [| |discriminate]; [|reflexivity].
  destruct (in_range b _ note); [|reflexivity].
  destruct (ProDjLink.fader_start_pkt _ _ _); cbn [bind] in H; [|discriminate].
  destruct (assign_from_prev_event _ _ _); cbn [bind] in H; discriminate.
Qed.

(** X10: a note-on event delivered a second time right after the first
    returns nothing and leaves the engine unchanged: the fader-start packet
    equals the stored one, the event before it is now the note itself, so
    no assignment is inferred, and the on-air vector is the one just
    stored. *)
Theorem note_redelivery_silent (djm : djm_enum) (self : MidiMain)
    (note velocity : Z) (self1 : MidiMain) (out_pkt1 : bytes) :
  handle_event djm self (NoteOn note velocity) = Ok (self1, out_pkt1) ->
  handle_event djm self1 (NoteOn note velocity) = Ok (self1, []).
Proof.
  intros H. set (ev := NoteOn note velocity) in *.
  apply handle_event_inv in H as (sd & od & send & Hd & E).
  assert (E1 : self1 = fst (finish ev sd od send)) by (rewrite <- E; reflexivity).
  assert (Hp : prev_event self1 = Some ev) by (rewrite E1; apply prev_event_finish).
  assert (Hd2 : dispatch djm (first_prev_event self1 ev) ev = Ok (self1, [], send)).
  { rewrite (first_prev_event_set _ _ _ Hp).
    destruct send.
    - unfold dispatch, ev in Hd |- *.
      destruct (attr_truthy (FADER_START1_NOTE djm)) as [[b|]|]; cbn [bind] in *;
        try discriminate.
      destruct (in_range b _ note); [|discriminate].
      destruct (ProDjLink.fader_start_pkt _ _ _) as [pkt|]; cbn [bind] in *;
        [|discriminate].
      destruct (assign_from_prev_event _ _ _) as [s2|] eqn:Ha; cbn [bind] in Hd;
        [|discriminate].
      apply assign_from_prev_event_inv in Ha.
      injection Hd as <- _.
      assert (Hl : last_fader_start_pkt self1 = Some pkt).
      { rewrite E1, Ha. reflexivity. }
      rewrite Hl, bool_decide_eq_true_2 by reflexivity.
      rewrite (set_last_fader_start_pkt_same _ _ Hl).
      unfold assign_from_prev_event. rewrite Hp. reflexivity.
    - eapply dispatch_note_not_sent. exact Hd. }
  rewrite (handle_event_dispatch _ _ _ _ _ _ Hd2).
  rewrite E1. unfold finish. destruct send; cbn [fst].
  - f_equal. f_equal.
    change (onair_channels
              (set_prev_event (Some ev)
                 (set_last_onair_pkt (Some (onair_bytes (onair_channels sd))) sd)))
      with (onair_channels sd).
    cbn [last_onair_pkt set_prev_event set_last_onair_pkt].
    rewrite bool_decide_eq_true_2 by reflexivity. reflexivity.
  - reflexivity.
Qed.

Lemma note_redelivery_silent_witness :
  exists self1 out_pkt1,
    handle_event DJM850 (MidiMain_init DJM850 None) (NoteOn 102 0)
    = Ok (self1, out_pkt1) /\
    out_pkt1 <> [] /\
    handle_event DJM850 self1 (NoteOn 102 0) = Ok (self1, []).
Proof.
  do 2 eexists. split; [vm_compute; reflexivity|].
  split; [discriminate|].
  eapply (note_redelivery_silent DJM850 (MidiMain_init DJM850 None) 102 0).
  vm_compute. reflexivity.
Defined.

(** X11: an event outside every recognized range of the profile (the
    constants it needs being defined or answered with [None]) changes
    nothing but [prev_event] and produces no packet: the handler returns
    empty bytes, which [main] does not send.  Note-off and other kinds of
    events are always of this sort. *)
Theorem unrecognized_events_inert (djm : djm_enum) (self : MidiMain) (event : event)
    (port : string) :
  unrecognized djm event ->
  source_port self = Some port ->
  handle_event djm self event = Ok (set_prev_event (Some event) self, []) /\
  wait_handle_input_event djm self (Received event)
  = Ok (set_prev_event (Some event) self, Some []) /\
  forall last,
    main_iteration {| djm_enum_of := djm; midi_main := self;
                      last_src_port_name := last |} [] (Received event)
    = Ok ({| djm_enum_of := djm; midi_main := set_prev_event (Some event) self;
             last_src_port_name := last |}, None).
Proof.
  intros Hu Hp.
  pose proof (unrecognized_event_inert djm self event Hu) as H.
  assert (Hw : wait_handle_input_event djm self (Received event)
               = Ok (set_prev_event (Some event) self, Some [])).
  { unfold wait_handle_input_event. rewrite Hp, H. reflexivity. }
  split; [exact H|]. split; [exact Hw|].
  intros last. unfold main_iteration, attach. cbn [midi_main djm_enum_of].
  rewrite Hp. cbn [bind midi_main djm_enum_of]. rewrite Hw. reflexivity.
Qed.

Lemma unrecognized_events_inert_witness :
  handle_event DJM750 (MidiMain_init DJM750 (Some "DJM-750"%string)) (Controller 7 100)
  = Ok (set_prev_event (Some (Controller 7 100))
          (MidiMain_init DJM750 (Some "DJM-750"%string)), []) /\
  wait_handle_input_event DJM750 (MidiMain_init DJM750 (Some "DJM-750"%string))
    (Received (Controller 7 100))
  = Ok (set_prev_event (Some (Controller 7 100))
          (MidiMain_init DJM750 (Some "DJM-750"%string)), Some []) /\
  forall last,
    main_iteration {| djm_enum_of := DJM750;
                      midi_main := MidiMain_init DJM750 (Some "DJM-750"%string);
                      last_src_port_name := last |} [] (Received (Controller 7 100))
    = Ok ({| djm_enum_of := DJM750;
             midi_main := set_prev_event (Some (Controller 7 100))
                            (MidiMain_init DJM750 (Some "DJM-750"%string));
             last_src_port_name := last |}, None).
Proof.
  apply (unrecognized_events_inert DJM750 (MidiMain_init DJM750 (Some "DJM-750"%string))
           (Controller 7 100) "DJM-750").
  - cbn. repeat split; try lia. right. exists 94. split; [reflexivity|lia].
  - reflexivity.
Defined.

Lemma lookup_map {A B} (f : A -> B) (l : list A) (i : nat) :
  map f l !! i = option_map f (l !! i).
Proof.
  revert i. induction l as [|x l IH]; intros [|i]; cbn; try reflexivity. apply IH.
Qed.

Lemma lookup_zip_with_andb (l k : list bool) (i : nat) :
  zip_with andb l k !! i
  = match l !! i, k !! i with
    | Some x, Some y => Some (x && y)
    | _, _ => None
    end.
Proof.
  revert k i. induction l as [|x l IH]; intros [|y k] [|i]; cbn; try reflexivity.
  - destruct (l !! i); reflexivity.
  - apply IH.
Qed.

Lemma zip_with_andb_true (l : list bool) (n : nat) :
  (length l <= n)%nat -> zip_with andb l (replicate n true) = l.
Proof.
  revert n. induction l as [|x l IH]; intros [|n] H; cbn in *; try reflexivity; try lia.
  rewrite andb_true_r, IH by lia. reflexivity.
Qed.

(** X12: the on-air vector of an engine with at most four channels has one
    entry per channel; a channel is on air only if its fader flag is on;
    with the cross-fader in the middle (AB) the vector is the list of fader
    flags; and a channel with the neutral assignment 64 is never cut by the
    cross-fader, on either side. *)
Theorem onair_gate (djm : djm_enum) (self : MidiMain) :
  sized djm self ->
  CH_MAX djm <= 4 ->
  length (onair_channels self) = Z.to_nat (CH_MAX djm) /\
  (forall i, onair_channels self !! i = Some true -> onair_fader self !! i = Some true) /\
  (xfader_channel self <> "A"%string -> xfader_channel self <> "B"%string ->
   onair_channels self = onair_fader self) /\
  (forall i, cross_fader_assign self !! i = Some 64 ->
             onair_channels self !! i = onair_fader self !! i) /\
  (forall i a, xfader_channel self = "A"%string ->
               cross_fader_assign self !! i = Some a -> 64 < a ->
               onair_channels self !! i = Some false) /\
  (forall i a, xfader_channel self = "B"%string ->
               cross_fader_assign self !! i = Some a -> a < 64 ->
               onair_channels self !! i = Some false).
Proof.
  intros (L1 & L2 & L3) Hmax.
  assert (Hlen4 : (length (onair_fader self) <= 4)%nat) by lia.
  unfold onair_channels, _get_onair_xfader.
  split; [|split; [|split; [|split; [|split]]]].
  - rewrite length_zip_with.
    destruct (String.eqb _ "A"); [rewrite length_map; lia|].
    destruct (String.eqb _ "B"); [rewrite length_map; lia|].
    rewrite length_replicate. lia.
  - intros i. rewrite lookup_zip_with_andb.
    destruct (onair_fader self !! i) as [[|]|]; try discriminate; [reflexivity|].
    destruct (_ !! i); discriminate.
  - intros HA HB.
    apply String.eqb_neq in HA. apply String.eqb_neq in HB. rewrite HA, HB.
    apply zip_with_andb_true. exact Hlen4.
  - intros i Hi. rewrite lookup_zip_with_andb.
    destruct (onair_fader self !! i) as [f|] eqn:Ef; [|reflexivity].
    assert (Hi4 : (i < 4)%nat).
    { apply lookup_lt_Some in Ef. lia. }
    destruct (String.eqb _ "A"); [rewrite lookup_map, Hi; cbn; rewrite andb_true_r; reflexivity|].
    destruct (String.eqb _ "B"); [rewrite lookup_map, Hi; cbn; rewrite andb_true_r; reflexivity|].
    rewrite (lookup_replicate_2 _ _ _ Hi4). rewrite andb_true_r. reflexivity.
  - intros i a HA Hi Ha. apply String.eqb_eq in HA. rewrite HA.
    rewrite lookup_zip_with_andb, lookup_map, Hi. cbn.
    assert (Hf : is_Some (onair_fader self !! i)).
    { apply lookup_lt_is_Some_2. apply lookup_lt_Some in Hi. lia. }
    destruct Hf as [f ->].
    replace (a <=? 64) with false by (symmetry; apply Z.leb_gt; lia).
    rewrite andb_false_r. reflexivity.
  - intros i a HB Hi Ha.
    assert (HA : String.eqb (xfader_channel self) "A" = false) by (rewrite HB; reflexivity).
    apply String.eqb_eq in HB. rewrite HA, HB.
    rewrite lookup_zip_with_andb, lookup_map, Hi. cbn.
    assert (Hf : is_Some (onair_fader self !! i)).
    { apply lookup_lt_is_Some_2. apply lookup_lt_Some in Hi. lia. }
    destruct Hf as [f ->].
    replace (64 <=? a) with false by (symmetry; apply Z.leb_gt; lia).
    rewrite andb_false_r. reflexivity.
Qed.

Lemma onair_gate_witness :
  let self := set_xfader 0 "A" (set_cross_fader_assign [127; 64]
                (set_onair_fader [true; true] (MidiMain_init DJM250MK2 None))) in
  length (onair_channels self) = Z.to_nat (CH_MAX DJM250MK2) /\
  (forall i, onair_channels self !! i = Some true -> onair_fader self !! i = Some true) /\
  (xfader_channel self <> "A"%string -> xfader_channel self <> "B"%string ->
   onair_channels self = onair_fader self) /\
  (forall i, cross_fader_assign self !! i = Some 64 ->
             onair_channels self !! i = onair_fader self !! i) /\
  (forall i a, xfader_channel self = "A"%string ->
               cross_fader_assign self !! i = Some a -> 64 < a ->
               onair_channels self !! i = Some false) /\
  (forall i a, xfader_channel self = "B"%string ->
               cross_fader_assign self !! i = Some a -> a < 64 ->
               onair_channels self !! i = Some false).
Proof.
  apply (onair_gate DJM250MK2
           (set_xfader 0 "A" (set_cross_fader_assign [127; 64]
              (set_onair_fader [true; true] (MidiMain_init DJM250MK2 None))))).
  - repeat split.
  - cbn. lia.
Defined.

(** ** Device lookup *)

Lemma prefix_app (sub s : string) :
  String.prefix sub s = true <-> exists post, s = String.append sub post.
Proof.
  revert s. induction sub as [|c sub IH]; intros s.
  - split; [intros _; exists s; reflexivity|intros _; destruct s; reflexivity].
  - destruct s as [|d s]; cbn.
    + split; [discriminate|intros [post H]; discriminate H].
    + destruct (ascii_dec c d) as [->|Hne].
      * rewrite IH. split; intros [post H]; exists post; congruence.
      * split; [discriminate|intros [post H]; congruence].
Qed.

(** [contains] is Python's substring test. *)
Lemma contains_spec (sub s : string) :
  contains sub s = true <->
  exists pre post, s = String.append pre (String.append sub post).
Proof.
  induction s as [|c s IH]; cbn [contains].
  - rewrite orb_false_r, prefix_app. split.
    + intros [post H]. exists EmptyString, post. exact H.
    + intros ([|d pre] & post & H); [exists post; exact H|discriminate H].
  - rewrite orb_true_iff, prefix_app, IH. split.
    + intros [[post H]|(pre & post & H)].
      * exists EmptyString, post. exact H.
      * exists (String c pre), post. cbn. rewrite H. reflexivity.
    + intros ([|d pre] & post & H).
      * left. exists post. exact H.
      * right. exists pre, post. cbn in H. congruence.
Qed.

(** X13: [connect_port] and [find_port] agree on the device: if some port's
    name contains the string, [connect_port] attaches the engine to the
    first such port, which is the one [find_port] names, and changes nothing
    else; if none does, [connect_port] answers [False] and leaves the engine
    as it is, and [find_port] answers the empty name. *)
Theorem connect_port_find_port (self : MidiMain) (ports : list string)
    (port_str : string) :
  (Exists (fun name => contains port_str name = true) ports ->
   connect_port self ports port_str
   = (set_source_port (Some (find_port ports port_str)) self, true) /\
   contains port_str (find_port ports port_str) = true /\
   In (find_port ports port_str) ports) /\
  (Forall (fun name => contains port_str name = false) ports ->
   connect_port self ports port_str = (self, false) /\
   find_port ports port_str = ""%string).
Proof.
  induction ports as [|name ports [IH1 IH2]]; cbn.
  - split; [intros H; inversion H|]. intros _. split; reflexivity.
  - destruct (contains port_str name) eqn:E.
    + split.
      * intros _. split; [reflexivity|]. split; [exact E|left; reflexivity].
      * intros H. apply Forall_cons in H as [H _]. congruence.
    + split.
      * intros H. apply Exists_cons in H as [H|H]; [congruence|].
        destruct (IH1 H) as (H1 & H2 & H3). split; [exact H1|]. split; [exact H2|].
        right. exact H3.
      * intros H. apply Forall_cons in H as [_ H]. exact (IH2 H).
Qed.

Lemma connect_port_find_port_witness :
  connect_port (MidiMain_init DJM850 None)
    ["Midi Through"; "DJM-850"; "DJM-450"]%string "DJM"
  = (set_source_port
       (Some (find_port ["Midi Through"; "DJM-850"; "DJM-450"]%string "DJM"))
       (MidiMain_init DJM850 None), true) /\
  contains "DJM" (find_port ["Midi Through"; "DJM-850"; "DJM-450"]%string "DJM") = true /\
  In (find_port ["Midi Through"; "DJM-850"; "DJM-450"]%string "DJM")
    ["Midi Through"; "DJM-850"; "DJM-450"]%string.
Proof.
  apply (proj1 (connect_port_find_port (MidiMain_init DJM850 None)
                  ["Midi Through"; "DJM-850"; "DJM-450"]%string "DJM")).
  apply Exists_cons_tl, Exists_cons_hd. reflexivity.
Defined.

Lemma addresses_disjoint_2ch : addresses_disjoint DJM250MK2.
Proof.
  unfold addresses_disjoint. cbn. repeat split; try discriminate.
  intros x H. apply in_range_spec in H. range_false.
Qed.

Lemma addresses_disjoint_4ch fs :
  addresses_disjoint
    {| CH_MAX := 4; CROSS_FADER := 11; CH1_FADER := 17;
       FIRST_CROSS_FADER_ASSIGN := 65; CH_FADER := Member 94;
       FADER_START1_NOTE := fs |}.
Proof.
  unfold addresses_disjoint. cbn. repeat split; try discriminate.
  - intros x H. apply in_range_spec in H. range_false.
  - injection H as <-. discriminate.
  - injection H as <-. reflexivity.
  - injection H as <-. reflexivity.
Qed.

(** X14: every profile [get_djm_enum] answers has two or four channels,
    addresses that do not overlap, and a slope control only together with
    four channels, so that no controller event can raise on it;
    [FADER_START1_NOTE] cannot be looked up exactly on the profiles of
    "DJM-750" and "DJM-750MK2"; and the empty name, which [find_port]
    answers when no port matches, has no profile. *)
Theorem get_djm_enum_profile (client_name : string) (djm : djm_enum) :
  get_djm_enum client_name = Some djm ->
  (CH_MAX djm = 2 \/ CH_MAX djm = 4) /\
  controller_safe djm /\
  addresses_disjoint djm /\
  (FADER_START1_NOTE djm = AttrMissing <->
   client_name = "DJM-750"%string \/ client_name = "DJM-750MK2"%string) /\
  In client_name ["DJM-250MK2"; "DJM-450"; "DJM-750"; "DJM-750MK2"; "DJM-850"]%string /\
  get_djm_enum "" = None.
Proof.
  unfold get_djm_enum. cbv zeta.
  destruct (String.eqb_spec client_name "DJM-850") as [->|N5].
  { intros [= <-]. split; [right; reflexivity|].
    split; [split; [cbn; lia|split; [discriminate|intros c _; reflexivity]]|].
    split; [apply addresses_disjoint_4ch|].
    split; [split; [discriminate|intros [H|H]; discriminate H]|].
    split; [cbn; tauto|reflexivity]. }
  destruct (String.eqb_spec client_name "DJM-750MK2") as [->|N4].
  { intros [= <-]. split; [right; reflexivity|].
    split; [split; [cbn; lia|split; [discriminate|intros c _; reflexivity]]|].
    split; [apply addresses_disjoint_4ch|].
    split; [split; [intros _; right; reflexivity|reflexivity]|].
    split; [cbn; tauto|reflexivity]. }
  destruct (String.eqb_spec client_name "DJM-750") as [->|N3].
  { intros [= <-]. split; [right; reflexivity|].
    split; [split; [cbn; lia|split; [discriminate|intros c _; reflexivity]]|].
    split; [apply addresses_disjoint_4ch|].
    split; [split; [intros _; left; reflexivity|reflexivity]|].
    split; [cbn; tauto|reflexivity]. }
  destruct (String.eqb_spec client_name "DJM-250MK2") as [->|N1].
  { intros [= <-]. split; [left; reflexivity|].
    split; [split; [cbn; lia|split; [discriminate|intros c H; discriminate H]]|].
    split; [apply addresses_disjoint_2ch|].
    split; [split; [discriminate|intros [H|H]; discriminate H]|].
    split; [cbn; tauto|reflexivity]. }
  destruct (String.eqb_spec client_name "DJM-450") as [->|N2]; [|discriminate].
  intros [= <-]. split; [left; reflexivity|].
  split; [split; [cbn; lia|split; [discriminate|intros c H; discriminate H]]|].
  split; [apply addresses_disjoint_2ch|].
  split; [split; [discriminate|intros [H|H]; discriminate H]|].
  split; [cbn; tauto|reflexivity].
Qed.

Lemma get_djm_enum_profile_witness :
  (CH_MAX DJM750MK2 = 2 \/ CH_MAX DJM750MK2 = 4) /\
  controller_safe DJM750MK2 /\
  addresses_disjoint DJM750MK2 /\
  (FADER_START1_NOTE DJM750MK2 = AttrMissing <->
   "DJM-750MK2"%string = "DJM-750"%string \/ "DJM-750MK2"%string = "DJM-750MK2"%string) /\
  In "DJM-750MK2"%string
    ["DJM-250MK2"; "DJM-450"; "DJM-750"; "DJM-750MK2"; "DJM-850"]%string /\
  get_djm_enum "" = None.
Proof. apply (get_djm_enum_profile "DJM-750MK2" DJM750MK2). reflexivity. Defined.

(** ** The session loop *)

Lemma set_source_port_back self name :
  source_port self = Some name ->
  set_source_port (Some name) (set_source_port None self) = self.
Proof. intros H. destruct self; cbn in *; subst; reflexivity. Qed.

Lemma connect_port_found self ports name :
  find_port ports "DJM" = name ->
  contains "DJM" name = true ->
  connect_port self ports "DJM" = (set_source_port (Some name) self, true).
Proof.
  induction ports as [|p ports IH]; cbn [find_port connect_port]; intros Hf Hc.
  - subst name. discriminate Hc.
  - destruct (contains "DJM" p) eqn:E; [subst; reflexivity|].
    apply IH; assumption.
Qed.

Lemma connect_port_not_found self ports :
  Forall (fun p => contains "DJM" p = false) ports ->
  connect_port self ports "DJM" = (self, false).
Proof.
  induction 1 as [|p ports Hp _ IH]; cbn [connect_port]; [reflexivity|].
  rewrite Hp. exact IH.
Qed.

Lemma get_djm_enum_contains_DJM client_name djm :
  get_djm_enum client_name = Some djm -> contains "DJM" client_name = true.
Proof.
  unfold get_djm_enum. cbv zeta.
  destruct (String.eqb_spec client_name "DJM-850") as [->|_]; [reflexivity|].
  destruct (String.eqb_spec client_name "DJM-750MK2") as [->|_]; [reflexivity|].
  destruct (String.eqb_spec client_name "DJM-750") as [->|_]; [reflexivity|].
  destruct (String.eqb_spec client_name "DJM-250MK2") as [->|_]; [reflexivity|].
  destruct (String.eqb_spec client_name "DJM-450") as [->|_]; [reflexivity|].
  discriminate.
Qed.

(** X15: losing the device and getting the same device back changes
    nothing.  After the round in which the port is lost, the session sends
    nothing and stays as it is while no port named DJM is listed; and once
    the device with the name attached before is listed first again, every
    round goes exactly as if the device had never been lost: the fader
    levels, assignments, threshold and stored packets are all kept. *)
Theorem reattach_same_device (s : session) (ports : list string) (name : string)
    (i : input) :
  source_port (midi_main s) = Some name ->
  last_src_port_name s = Some name ->
  find_port ports "DJM" = name ->
  contains "DJM" name = true ->
  exists s1,
    main_iteration s ports PortUnsubscribed = Ok (s1, None) /\
    source_port (midi_main s1) = None /\
    (forall ports0 i0,
        Forall (fun p => contains "DJM" p = false) ports0 ->
        main_iteration s1 ports0 i0 = Ok (s1, None)) /\
    main_iteration s1 ports i = main_iteration s ports i.
Proof.
  intros Hp Hl Hf Hc.
  exists {| djm_enum_of := djm_enum_of s;
            midi_main := set_source_port None (midi_main s);
            last_src_port_name := last_src_port_name s |}.
  split; [|split; [|split]].
  - unfold main_iteration, attach, wait_handle_input_event. rewrite Hp.
    cbn [bind]. rewrite Hp. reflexivity.
  - reflexivity.
  - intros ports0 i0 Hnone.
    unfold main_iteration, attach. cbn [midi_main source_port set_source_port].
    rewrite (connect_port_not_found _ ports0 Hnone).
    reflexivity.
  - unfold main_iteration at 1. unfold attach.
    cbn [midi_main source_port set_source_port last_src_port_name djm_enum_of].
    rewrite (connect_port_found _ ports name Hf Hc).
    rewrite (set_source_port_back _ _ Hp), Hp, Hl, String.eqb_refl.
    cbn [negb bind djm_enum_of midi_main last_src_port_name].
    unfold main_iteration, attach. rewrite Hp. cbn [bind].
    rewrite Hl. reflexivity.
Qed.

Lemma reattach_same_device_witness :
  let s := {| djm_enum_of := DJM850;
              midi_main := MidiMain_init DJM850 (Some "DJM-850"%string);
              last_src_port_name := Some "DJM-850"%string |} in
  exists s1,
    main_iteration s ["Midi Through"; "DJM-850"]%string PortUnsubscribed = Ok (s1, None) /\
    source_port (midi_main s1) = None /\
    (forall ports0 i0,
        Forall (fun p => contains "DJM" p = false) ports0 ->
        main_iteration s1 ports0 i0 = Ok (s1, None)) /\
    main_iteration s1 ["Midi Through"; "DJM-850"]%string (Received (Controller 17 9))
    = main_iteration s ["Midi Through"; "DJM-850"]%string (Received (Controller 17 9)).
Proof.
  apply (reattach_same_device
           {| djm_enum_of := DJM850;
              midi_main := MidiMain_init DJM850 (Some "DJM-850"%string);
              last_src_port_name := Some "DJM-850"%string |}
           ["Midi Through"; "DJM-850"]%string "DJM-850" (Received (Controller 17 9)));
    reflexivity.
Defined.

(** X16: when a different device is attached after a loss, the engine is
    built anew for the profile of the new name before the next event is
    read: the round goes exactly as the round of a fresh session of the new
    device, whatever the old engine held.  When the new name contains DJM
    but has no profile, building the engine raises [AttributeError]. *)
Theorem reattach_other_device (s : session) (ports : list string)
    (last name : string) (i : input) :
  source_port (midi_main s) = None ->
  last_src_port_name s = Some last ->
  find_port ports "DJM" = name ->
  contains "DJM" name = true ->
  name <> last ->
  (forall djm,
      get_djm_enum name = Some djm ->
      main_iteration s ports i
      = main_iteration {| djm_enum_of := djm;
                          midi_main := MidiMain_init djm (Some name);
                          last_src_port_name := Some name |} ports i) /\
  (get_djm_enum name = None -> main_iteration s ports i = Raise AttributeError).
Proof.
  intros Hp Hl Hf Hc Hne.
  assert (Hneq : String.eqb last name = false).
  { apply String.eqb_neq. congruence. }
  split.
  - intros djm Hdjm.
    unfold main_iteration at 1. unfold attach.
    rewrite Hp, (connect_port_found _ ports name Hf Hc).
    cbn [source_port set_source_port]. rewrite Hl, Hneq. cbn [negb]. rewrite Hdjm.
    cbn [bind djm_enum_of midi_main last_src_port_name].
    unfold main_iteration, attach. reflexivity.
  - intros Hnone. unfold main_iteration, attach.
    rewrite Hp, (connect_port_found _ ports name Hf Hc).
    cbn [source_port set_source_port]. rewrite Hl, Hneq. cbn [negb]. rewrite Hnone.
    reflexivity.
Qed.

Lemma reattach_other_device_witness :
  let s := {| djm_enum_of := DJM850;
              midi_main := set_fader_value [100; 90; 80; 70] (MidiMain_init DJM850 None);
              last_src_port_name := Some "DJM-850"%string |} in
  (forall djm,
      get_djm_enum "DJM-450" = Some djm ->
      main_iteration s ["DJM-450"]%string (Received (Controller 17 9))
      = main_iteration {| djm_enum_of := djm;
                          midi_main := MidiMain_init djm (Some "DJM-450"%string);
                          last_src_port_name := Some "DJM-450"%string |}
          ["DJM-450"]%string (Received (Controller 17 9))) /\
  (get_djm_enum "DJM-450" = None ->
   main_iteration s ["DJM-450"]%string (Received (Controller 17 9))
   = Raise AttributeError).
Proof.
  apply (reattach_other_device
           {| djm_enum_of := DJM850;
              midi_main := set_fader_value [100; 90; 80; 70] (MidiMain_init DJM850 None);
              last_src_port_name := Some "DJM-850"%string |}
           ["DJM-450"]%string "DJM-850" "DJM-450" (Received (Controller 17 9)));
    try reflexivity.
  discriminate.
Defined.

(** X17: a session started from a list of ports attaches, in its first
    round over the same list, to the device whose name chose its profile:
    the engine is the fresh engine of that profile with the port set, and
    the name is remembered as the last device. *)
Theorem main_start_attach (ports : list string) (s : session) :
  main_start ports = Some s ->
  get_djm_enum (find_port ports "DJM") = Some (djm_enum_of s) /\
  contains "DJM" (find_port ports "DJM") = true /\
  attach s ports
  = Ok (Some {| djm_enum_of := djm_enum_of s;
                midi_main := MidiMain_init (djm_enum_of s)
                               (Some (find_port ports "DJM"));
                last_src_port_name := Some (find_port ports "DJM") |}).
Proof.
  unfold main_start.
  destruct (get_djm_enum (find_port ports "DJM")) as [djm|] eqn:Hdjm; [|discriminate].
  intros [= <-]. cbn [djm_enum_of].
  assert (Hc : contains "DJM" (find_port ports "DJM") = true).
  { eapply get_djm_enum_contains_DJM. exact Hdjm. }
  split; [reflexivity|]. split; [exact Hc|].
  unfold attach. cbn [midi_main source_port MidiMain_init last_src_port_name].
  rewrite (connect_port_found _ ports _ eq_refl Hc). reflexivity.
Qed.

Lemma main_start_attach_witness :
  let s := {| djm_enum_of := DJM250MK2; midi_main := MidiMain_init DJM250MK2 None;
              last_src_port_name := None |} in
  get_djm_enum (find_port ["Midi Through"; "DJM-250MK2"]%string "DJM")
  = Some (djm_enum_of s) /\
  contains "DJM" (find_port ["Midi Through"; "DJM-250MK2"]%string "DJM") = true /\
  attach s ["Midi Through"; "DJM-250MK2"]%string
  = Ok (Some {| djm_enum_of := djm_enum_of s;
                midi_main := MidiMain_init (djm_enum_of s)
                               (Some (find_port ["Midi Through"; "DJM-250MK2"]%string
                                        "DJM"));
                last_src_port_name :=
                  Some (find_port ["Midi Through"; "DJM-250MK2"]%string "DJM") |}).
Proof.
  apply (main_start_attach ["Midi Through"; "DJM-250MK2"]%string
           {| djm_enum_of := DJM250MK2; midi_main := MidiMain_init DJM250MK2 None;
              last_src_port_name := None |}).
  reflexivity.
Defined.

(** ** The entry point and the name field, in general *)

(** X18: what a call of [wait_handle_input_event] can have done when it
    returns.  Either it returns [None]: the engine had no port and is
    unchanged, or reading failed (an exception, or the port was
    unsubscribed) and the engine has only lost its port.  Or it returns
    bytes: an event was read and handled, the port is kept and
    [prev_event] is that event.  A read interrupted by anything but an
    [Exception] exits. *)
Theorem wait_handle_input_event_outcomes (djm : djm_enum) (self : MidiMain)
    (i : input) (self' : MidiMain) (ret : option bytes) :
  wait_handle_input_event djm self i = Ok (self', ret) ->
  (ret = None /\
   ((source_port self = None /\ self' = self) \/
    ((i = PortUnsubscribed \/ i = InputException) /\
     self' = set_source_port None self))) \/
  (exists event out_pkt,
      i = Received event /\ ret = Some out_pkt /\
      handle_event djm self event = Ok (self', out_pkt) /\
      source_port self' = source_port self /\ source_port self <> None /\
      prev_event self' = Some event).
Proof.
  unfold wait_handle_input_event.
  destruct (source_port self) as [port|] eqn:Hp.
  - destruct i as [event| | |]; try discriminate.
    + destruct (handle_event djm self event) as [[s1 o1]|] eqn:H; cbn [bind fst snd];
        [|discriminate].
      intros [= <- <-]. right. exists event, o1.
      split; [reflexivity|]. split; [reflexivity|]. split; [exact H|].
      split; [|split; [discriminate|eapply handle_event_prev_event; eauto]].
      apply handle_event_inv in H as (sd & od & send & Hd & E).
      apply finish_fields in E as (_ & E & _).
      apply dispatch_keeps in Hd as (_ & _ & _ & _ & _ & K & _).
      destruct (first_prev_event_fields self event)
        as (_ & _ & _ & _ & _ & _ & _ & _ & F).
      congruence.
    + intros [= <- <-]. left. split; [reflexivity|]. right. split; [left|]; reflexivity.
    + intros [= <- <-]. left. split; [reflexivity|]. right. split; [right|]; reflexivity.
  - intros [= <- <-]. left. split; [reflexivity|]. left. split; reflexivity.
Qed.

Lemma wait_handle_input_event_outcomes_witness :
  exists self',
    (Some (onair_bytes [true; false; false; false]) = None /\
     ((source_port (MidiMain_init DJM850 (Some "DJM-850"%string)) = None /\
       self' = MidiMain_init DJM850 (Some "DJM-850"%string)) \/
      ((Received (Controller 17 3) = PortUnsubscribed \/
        Received (Controller 17 3) = InputException) /\
       self' = set_source_port None (MidiMain_init DJM850 (Some "DJM-850"%string))))) \/
    (exists event out_pkt,
        Received (Controller 17 3) = Received event /\
        Some (onair_bytes [true; false; false; false]) = Some out_pkt /\
        handle_event DJM850 (MidiMain_init DJM850 (Some "DJM-850"%string)) event
        = Ok (self', out_pkt) /\
        source_port self' = source_port (MidiMain_init DJM850 (Some "DJM-850"%string)) /\
        source_port (MidiMain_init DJM850 (Some "DJM-850"%string)) <> None /\
        prev_event self' = Some event).
Proof.
  eexists.
  eapply (wait_handle_input_event_outcomes DJM850
            (MidiMain_init DJM850 (Some "DJM-850"%string)) (Received (Controller 17 3))).
  vm_compute. reflexivity.
Defined.

Lemma utf8_char_length c b :
  utf8_char c = Ok b -> (1 <= length b <= 4)%nat.
Proof.
  unfold utf8_char.
  destruct (c <? 0x80); [intros [= <-]; cbn; lia|].
  destruct (c <? 0x800); [intros [= <-]; cbn; lia|].
  destruct (_ && _); [discriminate|].
  destruct (c <? 0x10000); intros [= <-]; cbn; lia.
Qed.

Lemma encode_length s b :
  encode s = Ok b -> (length s <= length b <= 4 * length s)%nat.
Proof.
  revert b. induction s as [|c s IH]; cbn; intros b.
  - intros [= <-]. cbn. lia.
  - destruct (utf8_char c) as [bc|] eqn:Hc; cbn [bind]; [|discriminate].
    destruct (encode s) as [bs|]; cbn [bind]; [|discriminate].
    intros [= <-]. apply utf8_char_length in Hc. specialize (IH bs eq_refl).
    rewrite length_app. lia.
Qed.

(** X19: the name field of any name that can be encoded has at least 20 and
    at most 80 bytes (20 characters of one to four bytes each), so an on-air
    packet has between [41 + n] and [101 + n] bytes for [n] channels. *)
Theorem format_device_name_length (name : str) (onair_ch : list bool) :
  encodable name ->
  exists field pkt,
    ProDjLink._format_device_name name = Ok field /\
    (20 <= length field <= 80)%nat /\
    ProDjLink.onair_pkt name onair_ch = Ok pkt /\
    (41 + length onair_ch <= length pkt <= 101 + length onair_ch)%nat.
Proof.
  intros Henc. destruct (format_device_name_encodable _ Henc) as (field & Hf).
  assert (Hlen : (20 <= length field <= 80)%nat).
  { unfold ProDjLink._format_device_name in Hf. apply encode_length in Hf.
    unfold ProDjLink._MAX_DEVICE_NAME_LEN, ljust in Hf.
    rewrite length_take, length_app, length_replicate in Hf. lia. }
  exists field. eexists. split; [exact Hf|]. split; [exact Hlen|].
  unfold ProDjLink.onair_pkt. rewrite Hf. cbn [bind]. split; [reflexivity|].
  rewrite !length_app. unfold bytes_of_bools. rewrite length_map. cbn. lia.
Qed.

Lemma format_device_name_length_witness :
  exists field pkt,
    ProDjLink._format_device_name [0xE9; 0x20AC; 0x1F3A7] = Ok field /\
    (20 <= length field <= 80)%nat /\
    ProDjLink.onair_pkt [0xE9; 0x20AC; 0x1F3A7] [true; false] = Ok pkt /\
    (41 + length [true; false] <= length pkt <= 101 + length [true; false])%nat.
Proof.
  apply (format_device_name_length [0xE9; 0x20AC; 0x1F3A7] [true; false]).
  unfold encodable. repeat constructor.
Defined.
